(** * luqum: the Elasticsearch query builder

    A shallow embedding of [luqum/elasticsearch/visitor.py]
    (class [ElasticsearchQueryBuilder]) and the properties of the
    compilation of a Lucene tree into a tree of Elasticsearch items. *)

From Stdlib Require Import ZArith Floats.
From stdpp Require Import base list strings gmap pretty.

Set Default Proof Using "Type".
Set Warnings "-register-all".

(** ** Exceptions and outcomes of a Python call *)

(** The exceptions a visit can end with.  [OrAndAndOnSameLevel] is the one
    the builder raises itself; the others are raised by the interpreter
    (a list index out of range, an attribute looked up on an object that
    lacks it, a loop over an object that is no sequence, the call stack
    running out). *)
Inductive exn : Type :=
| OrAndAndOnSameLevel (extract : string)
| IndexError
| AttributeError
| TypeError
| RecursionError.

Inductive outcome (A : Type) : Type :=
| Return (a : A)
| Raise (e : exn).
Arguments Return {A} a.
Arguments Raise {A} e.

Definition bind {A B : Type} (m : outcome A) (k : A → outcome B) : outcome B :=
  match m with
  | Return a => k a
  | Raise e => Raise e
  end.

Notation "'let*' x ':=' m 'in' k" := (bind m (fun x => k))
  (at level 10, x name, m at level 100, k at level 200).

Definition mapM {A B : Type} (f : A → outcome B) : list A → outcome (list B) :=
  fix go (l : list A) : outcome (list B) :=
    match l with
    | [] => Return []
    | x :: l' => let* y := f x in let* ys := go l' in Return (y :: ys)
    end.

Definition succeeds {A : Type} (m : outcome A) : Prop := ∃ a, m = Return a.

(** A generator, as the consumer sees it: it is exhausted, it yields a value
    and goes on, or it raises when the next value is asked for. *)
Inductive generator (A : Type) : Type :=
| Exhausted
| Yield (a : A) (rest : generator A)
| Raising (e : exn).
Arguments Exhausted {A}.
Arguments Yield {A} a rest.
Arguments Raising {A} e.

(** ** Python strings: [find] and slicing *)

Definition len (s : string) : Z := Z.of_nat (String.length s).

(** [s.find(sub)]: the lowest index where [sub] occurs in [s], or -1. *)
Definition find (s sub : string) : Z :=
  match String.index 0 sub s with
  | Some i => Z.of_nat i
  | None => (-1)%Z
  end.

(** [s[start:stop]]: a negative index counts from the end, and both ends
    are clipped to the string. *)
Definition slice (s : string) (start stop : Z) : string :=
  let clip (i : Z) : Z :=
    if (i <? 0)%Z then Z.max 0 (i + len s) else Z.min i (len s) in
  String.substring (Z.to_nat (clip start))
                   (Z.to_nat (clip stop - clip start)) s.

(** ** The builder's configuration *)

Definition SHOULD : string := "should".
Definition MUST : string := "must".

Record ElasticsearchQueryBuilder : Type := {
  default_operator : string;
  default_field : string;
  _not_analyzed_fields : list string;
  _nested_fields : list string
}.

(** [__init__]: an absent or empty list of field names is stored as the
    empty list. *)
Definition init (default_operator default_field : string)
    (not_analyzed_fields nested_fields : option (list string))
  : ElasticsearchQueryBuilder :=
  {| default_operator := default_operator;
     default_field := default_field;
     _not_analyzed_fields := default [] not_analyzed_fields;
     _nested_fields := default [] nested_fields |}.

(** The operator is one of the two the builder knows. *)
Definition known_operator (self : ElasticsearchQueryBuilder) : Prop :=
  default_operator self = SHOULD ∨ default_operator self = MUST.

(** ** The Lucene tree (luqum.tree) *)

Section Tree.

(** The parser keeps the force of a boost and the degree of a fuzzy or
    proximity search as decimal numbers. *)
Context {Decimal : Type}.

(** One constructor per node class.  The two bounds of a [Range] are terms;
    the builder reads only their [value], which is what the constructor
    keeps.  An operation holds any number of operands. *)
Inductive Node : Type :=
| Word (value : string)
| Phrase (value : string)
| Range (low high : string) (include_low include_high : bool)
| AndOperation (operands : list Node)
| OrOperation (operands : list Node)
| UnknownOperation (operands : list Node)
| Not (a : Node)
| Prohibit (a : Node)
| Plus (a : Node)
| Boost (expr : Node) (force : Decimal)
| Fuzzy (term : Node) (degree : Decimal)
| Proximity (term : Node) (degree : Decimal)
| Group (expr : Node)
| FieldGroup (expr : Node)
| SearchField (name : string) (expr : Node).

(** The class of a node, [type(node)]. *)
Inductive NodeType : Type :=
| TWord | TPhrase | TRange
| TAndOperation | TOrOperation | TUnknownOperation
| TNot | TProhibit | TPlus
| TBoost | TFuzzy | TProximity
| TGroup | TFieldGroup | TSearchField.

#[global] Instance NodeType_eq_dec : EqDecision NodeType.
Proof. solve_decision. Defined.

Definition type (node : Node) : NodeType :=
  match node with
  | Word _ => TWord
  | Phrase _ => TPhrase
  | Range _ _ _ _ => TRange
  | AndOperation _ => TAndOperation
  | OrOperation _ => TOrOperation
  | UnknownOperation _ => TUnknownOperation
  | Not _ => TNot
  | Prohibit _ => TProhibit
  | Plus _ => TPlus
  | Boost _ _ => TBoost
  | Fuzzy _ _ => TFuzzy
  | Proximity _ _ => TProximity
  | Group _ => TGroup
  | FieldGroup _ => TFieldGroup
  | SearchField _ _ => TSearchField
  end.

(** None of the node classes the builder tests for has a subclass, so
    [isinstance] is a comparison of classes. *)
Definition isinstance (node : Node) (cls : NodeType) : bool :=
  bool_decide (type node = cls).

(** [node.children]; the two bounds of a range come back as words. *)
Definition children (node : Node) : list Node :=
  match node with
  | Word _ | Phrase _ => []
  | Range low high _ _ => [Word low; Word high]
  | AndOperation operands
  | OrOperation operands
  | UnknownOperation operands => operands
  | Not a | Prohibit a | Plus a => [a]
  | Boost expr _ => [expr]
  | Fuzzy term _ | Proximity term _ => [term]
  | Group expr | FieldGroup expr => [expr]
  | SearchField _ expr => [expr]
  end.

(** The number of nodes on the longest path from a node down to a leaf:
    the depth the recursion of [visit] reaches on it. *)
Fixpoint depth (node : Node) : nat :=
  match node with
  | Word _ | Phrase _ => 1
  | Range _ _ _ _ => 2
  | AndOperation operands
  | OrOperation operands
  | UnknownOperation operands =>
      S (foldr (fun child d => Nat.max (depth child) d) 0 operands)
  | Not a | Prohibit a | Plus a => S (depth a)
  | Boost expr _ => S (depth expr)
  | Fuzzy term _ | Proximity term _ => S (depth term)
  | Group expr | FieldGroup expr => S (depth expr)
  | SearchField _ expr => S (depth expr)
  end.

(** [below d node]: [d] is a node of the tree of [node], strictly below
    it. *)
Inductive below : Node → Node → Prop :=
| below_child (child node : Node) :
    child ∈ children node → below child node
| below_deeper (d child node : Node) :
    below d child → child ∈ children node → below d node.

(** The three classes of operations over a list of operands. *)
Inductive OperationClass : Type := CAnd | COr | CUnknown.

Definition operation (cls : OperationClass) (operands : list Node) : Node :=
  match cls with
  | CAnd => AndOperation operands
  | COr => OrOperation operands
  | CUnknown => UnknownOperation operands
  end.

(** Every operation of the tree has two operands at least, as the parser
    builds them. *)
Fixpoint binary_operations (node : Node) : bool :=
  match node with
  | Word _ | Phrase _ => true
  | Range _ _ _ _ => true
  | AndOperation operands
  | OrOperation operands
  | UnknownOperation operands =>
      bool_decide (2 ≤ length operands) && forallb binary_operations operands
  | Not a | Prohibit a | Plus a => binary_operations a
  | Boost expr _ => binary_operations expr
  | Fuzzy term _ | Proximity term _ => binary_operations term
  | Group expr | FieldGroup expr => binary_operations expr
  | SearchField _ expr => binary_operations expr
  end.

(** A tree of terms, ranges, explicit conjunctions and disjunctions, and
    negations, with none of the other classes of nodes. *)
Fixpoint explicit_boolean (node : Node) : bool :=
  match node with
  | Word _ | Phrase _ => true
  | Range _ _ _ _ => true
  | AndOperation operands
  | OrOperation operands => forallb explicit_boolean operands
  | Not a | Prohibit a => explicit_boolean a
  | _ => false
  end.

(** *** [simplify_if_same]

    The generator never raises, so it is read as the list of what it
    yields.  [simplify_child] is the body of its loop for one child;
    the recursion goes down the children of a child of the same class. *)
Fixpoint simplify_child (current_node child : Node) {struct child} : list Node :=
  if bool_decide (type child = type current_node) then
    match child with
    | Word _ | Phrase _ => []
    | Range low high _ _ => [Word low; Word high]
    | AndOperation operands
    | OrOperation operands
    | UnknownOperation operands =>
        flat_map (simplify_child current_node) operands
    | Not a | Prohibit a | Plus a => simplify_child current_node a
    | Boost expr _ => simplify_child current_node expr
    | Fuzzy term _ | Proximity term _ => simplify_child current_node term
    | Group expr | FieldGroup expr => simplify_child current_node expr
    | SearchField _ expr => simplify_child current_node expr
    end
  else [child].

Definition simplify_if_same (children : list Node) (current_node : Node)
  : list Node :=
  flat_map (simplify_child current_node) children.

(** *** [_is_nested] *)
Fixpoint _is_nested (node : Node) : bool :=
  let nested (child : Node) : bool :=
    if isinstance child TSearchField then true else _is_nested child in
  match node with
  | Word _ | Phrase _ => false
  | Range _ _ _ _ => false
  | AndOperation operands
  | OrOperation operands
  | UnknownOperation operands => existsb nested operands
  | Not a | Prohibit a | Plus a => nested a
  | Boost expr _ => nested expr
  | Fuzzy term _ | Proximity term _ => nested term
  | Group expr | FieldGroup expr => nested expr
  | SearchField _ expr => nested expr
  end.

End Tree.

Arguments Node : clear implicits.

(** ** The Elasticsearch items (luqum.elasticsearch.tree) *)

Section Items.

Context {Float : Type}.

(** The attributes the modifier visitors assign to an item after it is
    built. *)
Record attrs : Type := {
  boost : option Float;
  fuzziness : option Float;
  slop : option Float
}.

Definition no_attrs : attrs :=
  {| boost := None; fuzziness := None; slop := None |}.

(** Modelled from the spec: the item classes, which luqum.elasticsearch.tree
    declares.  The leaves are [EWord] (the spec's Term), [EPhrase] and
    [ERange]; a leaf keeps the keyword arguments it is built with and its
    [fields], empty when it is built.  The composites are [EMust],
    [EShould] and [EMustNot], over a list of items, and [ENested], over the
    one item it wraps under its [nested_path].  A Python object takes an
    attribute assignment whatever its class, so each item has the three
    attributes of [attrs].  [PyNone] is Python's [None], which a visit
    method returns when it ends without a [return]. *)
Inductive Item : Type :=
| EWord (q : string) (default_field : string) (fields : list string) (a : attrs)
| EPhrase (phrase : string) (default_field : string) (fields : list string)
    (a : attrs)
| ERange (kwargs : gmap string string) (fields : list string) (a : attrs)
| EMust (items : list Item) (a : attrs)
| EShould (items : list Item) (a : attrs)
| EMustNot (items : list Item) (a : attrs)
| ENested (nested_path : string) (items : Item) (a : attrs)
| PyNone.

(** The classes of the operations [_binary_operation] and [visit_not]
    build. *)
Inductive EOperation : Type := CMust | CShould | CMustNot.

(** Modelled from the spec: [es_item_factory.build], of
    luqum.elasticsearch.tree, which allocates the item of the class asked
    for from the payload it is given and does nothing else. *)
Definition build (cls : EOperation) (items : list Item) : Item :=
  match cls with
  | CMust => EMust items no_attrs
  | CShould => EShould items no_attrs
  | CMustNot => EMustNot items no_attrs
  end.

Definition build_EWord (q default_field : string) : Item :=
  EWord q default_field [] no_attrs.

Definition build_EPhrase (phrase default_field : string) : Item :=
  EPhrase phrase default_field [] no_attrs.

Definition build_ERange (kwargs : gmap string string) : Item :=
  ERange kwargs [] no_attrs.

Definition build_ENested (nested_path : string) (items : Item) : Item :=
  ENested nested_path items no_attrs.

(** Modelled from the spec: the field a leaf searches, a property of the
    item classes.  The segments of [fields] are joined with dots; a leaf no
    search field scopes falls back on its default field. *)
Definition field (default_field : string) (fields : list string) : string :=
  match fields with
  | [] => default_field
  | _ => String.concat "." fields
  end.

(** [enode.attribute = value]: [None] has no attribute to assign. *)
Definition setattr (update : attrs → attrs) (enode : Item) : outcome Item :=
  match enode with
  | EWord q d f a => Return (EWord q d f (update a))
  | EPhrase p d f a => Return (EPhrase p d f (update a))
  | ERange k f a => Return (ERange k f (update a))
  | EMust items a => Return (EMust items (update a))
  | EShould items a => Return (EShould items (update a))
  | EMustNot items a => Return (EMustNot items (update a))
  | ENested path items a => Return (ENested path items (update a))
  | PyNone => Raise AttributeError
  end.

Definition set_boost (v : Float) (a : attrs) : attrs :=
  {| boost := Some v; fuzziness := fuzziness a; slop := slop a |}.
Definition set_fuzziness (v : Float) (a : attrs) : attrs :=
  {| boost := boost a; fuzziness := Some v; slop := slop a |}.
Definition set_slop (v : Float) (a : attrs) : attrs :=
  {| boost := boost a; fuzziness := fuzziness a; slop := Some v |}.

(** The attributes of an item, and the item with other attributes. *)
Definition item_attrs (enode : Item) : option attrs :=
  match enode with
  | EWord _ _ _ a | EPhrase _ _ _ a | ERange _ _ a
  | EMust _ a | EShould _ a | EMustNot _ a | ENested _ _ a => Some a
  | PyNone => None
  end.

Definition with_attrs (a : attrs) (enode : Item) : Item :=
  match enode with
  | EWord q d f _ => EWord q d f a
  | EPhrase p d f _ => EPhrase p d f a
  | ERange k f _ => ERange k f a
  | EMust items _ => EMust items a
  | EShould items _ => EShould items a
  | EMustNot items _ => EMustNot items a
  | ENested path items _ => ENested path items a
  | PyNone => PyNone
  end.

(** *** [_set_search_field_in_all_children]

    An item of one of the leaf classes takes the field name at the front of
    its fields; any other object is asked for its [items], which [None]
    lacks, and the loop goes through them.  The items of an [EMust], an
    [EShould] or an [EMustNot] are a list, and each of them is gone through
    in turn.  The [items] of an [ENested] is the one item it wraps, as
    [visit_search_field] builds it, and not a list of items: an item is no
    sequence, and the loop over it raises [TypeError].  The source updates
    the items in place; no item is reached twice, and the update is read as
    the item it leaves. *)
Fixpoint _set_search_field_in_all_children (enode : Item) (field_name : string)
  : outcome Item :=
  match enode with
  | EWord q d fields a => Return (EWord q d (field_name :: fields) a)
  | EPhrase p d fields a => Return (EPhrase p d (field_name :: fields) a)
  | ERange k fields a => Return (ERange k (field_name :: fields) a)
  | EMust items a =>
      let* items' :=
        mapM (fun item => _set_search_field_in_all_children item field_name) items in
      Return (EMust items' a)
  | EShould items a =>
      let* items' :=
        mapM (fun item => _set_search_field_in_all_children item field_name) items in
      Return (EShould items' a)
  | EMustNot items a =>
      let* items' :=
        mapM (fun item => _set_search_field_in_all_children item field_name) items in
      Return (EMustNot items' a)
  | ENested _ _ _ => Raise TypeError
  | PyNone => Raise AttributeError
  end.

(** *** What the properties say of items *)

(** No [None] stands where an item is expected. *)
Fixpoint no_none (enode : Item) : bool :=
  match enode with
  | EWord _ _ _ _ | EPhrase _ _ _ _ | ERange _ _ _ => true
  | EMust items _ | EShould items _ | EMustNot items _ => forallb no_none items
  | ENested _ items _ => no_none items
  | PyNone => false
  end.

(** No [ENested] stands in the item. *)
Fixpoint no_nested (enode : Item) : bool :=
  match enode with
  | EWord _ _ _ _ | EPhrase _ _ _ _ | ERange _ _ _ => true
  | EMust items _ | EShould items _ | EMustNot items _ =>
      forallb no_nested items
  | ENested _ _ _ => false
  | PyNone => true
  end.

(** The fields of the leaves of an item, from left to right. *)
Fixpoint leaf_fields (enode : Item) : list (list string) :=
  match enode with
  | EWord _ _ fields _ | EPhrase _ _ fields _ | ERange _ fields _ => [fields]
  | EMust items _ | EShould items _ | EMustNot items _ =>
      flat_map leaf_fields items
  | ENested _ items _ => leaf_fields items
  | PyNone => []
  end.

(** An item with the fields of its leaves emptied: what it is made of
    besides them. *)
Fixpoint without_fields (enode : Item) : Item :=
  match enode with
  | EWord q d _ a => EWord q d [] a
  | EPhrase p d _ a => EPhrase p d [] a
  | ERange k _ a => ERange k [] a
  | EMust items a => EMust (map without_fields items) a
  | EShould items a => EShould (map without_fields items) a
  | EMustNot items a => EMustNot (map without_fields items) a
  | ENested path items a => ENested path (without_fields items) a
  | PyNone => PyNone
  end.

Definition is_must (enode : Item) : bool :=
  match enode with EMust _ _ => true | _ => false end.

Definition is_should (enode : Item) : bool :=
  match enode with EShould _ _ => true | _ => false end.

(** The flattening invariant: nowhere in the item is an [EMust] an item of
    an [EMust], or an [EShould] an item of an [EShould]. *)
Fixpoint flattened (enode : Item) : bool :=
  match enode with
  | EWord _ _ _ _ | EPhrase _ _ _ _ | ERange _ _ _ => true
  | EMust items _ =>
      forallb (fun item => negb (is_must item) && flattened item) items
  | EShould items _ =>
      forallb (fun item => negb (is_should item) && flattened item) items
  | EMustNot items _ => forallb flattened items
  | ENested _ items _ => flattened items
  | PyNone => true
  end.

End Items.

Arguments attrs : clear implicits.
Arguments Item : clear implicits.

(** ** The builder *)

(** What the builder takes from the interpreter and from luqum.tree:
    [float], Python's conversion of a decimal number to a floating-point
    one, and [str], the Lucene text of a node. *)
Class Runtime (Decimal Float : Type) : Type := {
  float : Decimal → Float;
  str : Node Decimal → string
}.

Section Builder.

Context {Decimal Float : Type} `{!Runtime Decimal Float}.

Variable self : ElasticsearchQueryBuilder.

Definition _get_operator_extract (binary_operation : Node Decimal) (delta : Z)
  : outcome string :=
  let node_str := str binary_operation in
  match children binary_operation !! 0%nat, children binary_operation !! 1%nat with
  | Some child_1, Some child_2 =>
      let child_str_1 := str child_1 in
      let child_str_2 := str child_2 in
      let middle_length := (len node_str - len child_str_1 - len child_str_2)%Z in
      let position := find node_str child_str_2 in
      let start :=
        if (0 <=? position - middle_length - delta)%Z
        then (position - middle_length - delta)%Z
        else 0%Z in
      let end_ := (position + delta)%Z in
      Return (slice node_str start end_)
  | _, _ => Raise IndexError
  end.

Definition _is_must (operation : Node Decimal) : bool :=
  isinstance operation TAndOperation ||
  isinstance operation TUnknownOperation &&
  bool_decide (default_operator self = MUST).

Definition _is_should (operation : Node Decimal) : bool :=
  isinstance operation TOrOperation ||
  isinstance operation TUnknownOperation &&
  bool_decide (default_operator self = SHOULD).

(** The test of [_yield_nested_children]: parent and child are operations
    of opposite kinds. *)
Definition opposite (parent child : Node Decimal) : bool :=
  _is_should parent && _is_must child ||
  _is_must parent && _is_should child.

Fixpoint _yield_nested_children (parent : Node Decimal)
    (children : list (Node Decimal)) : generator (Node Decimal) :=
  match children with
  | [] => Exhausted
  | child :: rest =>
      if opposite parent child then
        match _get_operator_extract child 8 with
        | Return extract => Raising (OrAndAndOnSameLevel extract)
        | Raise e => Raising e
        end
      else Yield child (_yield_nested_children parent rest)
  end.

(** [self.visit], which the methods call on the nodes below.  The chain of
    ancestors they pass along, [parents + [node]], is read by none of them
    and is left out. *)
Variable visit : Node Decimal → outcome (Item Float).

(** [[self.visit(child, ...) for child in children]]: a child is visited
    as soon as the generator yields it, before the next one is asked for. *)
Fixpoint visit_each (children : generator (Node Decimal))
  : outcome (list (Item Float)) :=
  match children with
  | Exhausted => Return []
  | Yield child rest =>
      let* item := visit child in
      let* items := visit_each rest in
      Return (item :: items)
  | Raising e => Raise e
  end.

Definition _binary_operation (cls : EOperation) (node : Node Decimal)
  : outcome (Item Float) :=
  let children := simplify_if_same (children node) node in
  let children := _yield_nested_children node children in
  let* items := visit_each children in
  Return (build cls items).

Definition _must_operation := _binary_operation CMust.
Definition _should_operation := _binary_operation CShould.
Definition visit_and_operation := _must_operation.
Definition visit_or_operation := _should_operation.

Definition visit_word (value : string) : outcome (Item Float) :=
  Return (build_EWord value (default_field self)).

(** In the nested case the source wraps the item first and then sets the
    field name in the item wrapped, in place: the result is the wrapper
    around the item with the field name set. *)
Definition visit_search_field (node : Node Decimal) (name : string)
    (expr : Node Decimal) : outcome (Item Float) :=
  let* enode := visit expr in
  if _is_nested node then
    let* items := _set_search_field_in_all_children enode name in
    Return (build_ENested name items)
  else
    _set_search_field_in_all_children enode name.

Definition visit_not (node : Node Decimal) : outcome (Item Float) :=
  let* items := mapM visit (simplify_if_same (children node) node) in
  Return (build CMustNot items).

Definition visit_prohibit := visit_not.
Definition visit_plus := _must_operation.

Definition visit_unknown_operation (node : Node Decimal) : outcome (Item Float) :=
  if bool_decide (default_operator self = SHOULD) then _should_operation node
  else if bool_decide (default_operator self = MUST) then _must_operation node
  else Return PyNone.

Definition visit_boost (expr : Node Decimal) (force : Decimal)
  : outcome (Item Float) :=
  let* eword := visit expr in
  setattr (set_boost (float force)) eword.

Definition visit_fuzzy (term : Node Decimal) (degree : Decimal)
  : outcome (Item Float) :=
  let* eword := visit term in
  setattr (set_fuzziness (float degree)) eword.

Definition visit_proximity (term : Node Decimal) (degree : Decimal)
  : outcome (Item Float) :=
  let* ephrase := visit term in
  setattr (set_slop (float degree)) ephrase.

Definition visit_phrase (value : string) : outcome (Item Float) :=
  Return (build_EPhrase value (default_field self)).

(** The dictionary of keyword arguments: one key for each bound. *)
Definition range_kwargs (low high : string) (include_low include_high : bool)
  : gmap string string :=
  <[(if include_high then "lte" else "lt") := high]>
    (<[(if include_low then "gte" else "gt") := low]> ∅).

Definition visit_range (low high : string) (include_low include_high : bool)
  : outcome (Item Float) :=
  Return (build_ERange (range_kwargs low high include_low include_high)).

Definition visit_group (expr : Node Decimal) : outcome (Item Float) :=
  visit expr.

Definition visit_field_group (expr : Node Decimal) : outcome (Item Float) :=
  let* fields := visit expr in
  Return fields.

(** The dispatch of [LuceneTreeVisitorV2.visit]: the method named after the
    class of the node. *)
Definition visit_node (node : Node Decimal) : outcome (Item Float) :=
  match node with
  | Word value => visit_word value
  | Phrase value => visit_phrase value
  | Range low high include_low include_high =>
      visit_range low high include_low include_high
  | AndOperation _ => visit_and_operation node
  | OrOperation _ => visit_or_operation node
  | UnknownOperation _ => visit_unknown_operation node
  | Not _ => visit_not node
  | Prohibit _ => visit_prohibit node
  | Plus _ => visit_plus node
  | Boost expr force => visit_boost expr force
  | Fuzzy term degree => visit_fuzzy term degree
  | Proximity term degree => visit_proximity term degree
  | Group expr => visit_group expr
  | FieldGroup expr => visit_field_group expr
  | SearchField name expr => visit_search_field node name expr
  end.

End Builder.

(** [visit] with the depth of its recursion bounded, as the interpreter
    bounds it: a call at depth zero raises. *)
Fixpoint visit `{!Runtime Decimal Float} (self : ElasticsearchQueryBuilder)
    (limit : nat) (node : Node Decimal) : outcome (Item Float) :=
  match limit with
  | O => Raise RecursionError
  | S limit' => visit_node self (visit self limit') node
  end.

(** The compilation of a tree: [visit] with the room the tree needs. *)
Definition compile `{!Runtime Decimal Float} (self : ElasticsearchQueryBuilder)
    (node : Node Decimal) : outcome (Item Float) :=
  visit self (depth node) node.

(** The class of item the builder builds for an operation of each class:
    the choice [visit_unknown_operation] makes for an unknown operation, and
    none when the operator is neither of the two. *)
Definition built_by (self : ElasticsearchQueryBuilder) (cls : OperationClass)
  : option EOperation :=
  match cls with
  | CAnd => Some CMust
  | COr => Some CShould
  | CUnknown =>
      if bool_decide (default_operator self = SHOULD) then Some CShould
      else if bool_decide (default_operator self = MUST) then Some CMust
      else None
  end.

(** The boolean kind of a node: an [AndOperation] is of the kind of
    [EMust], an [OrOperation] of the kind of [EShould], an unknown operation
    of the kind of the default operator, and any other node of none. *)
Definition boolean_kind {Decimal : Type} (self : ElasticsearchQueryBuilder)
    (node : Node Decimal) : option EOperation :=
  match node with
  | AndOperation _ => built_by self CAnd
  | OrOperation _ => built_by self COr
  | UnknownOperation _ => built_by self CUnknown
  | _ => None
  end.

Definition operation_type (cls : OperationClass) : NodeType :=
  match cls with
  | CAnd => TAndOperation
  | COr => TOrOperation
  | CUnknown => TUnknownOperation
  end.

(** ** Further notions for the properties of the builder *)

#[global] Instance EOperation_eq_dec : EqDecision EOperation.
Proof. solve_decision. Defined.

(** [d] is the node or a node strictly below it. *)
Definition at_or_below {Decimal : Type} (d node : Node Decimal) : Prop :=
  d = node ∨ below d node.

(** No node of the tree is of the boolean kind [kind]. *)
Fixpoint kind_free {Decimal : Type} (self : ElasticsearchQueryBuilder)
    (kind : EOperation) (node : Node Decimal) : bool :=
  negb (bool_decide (boolean_kind self node = Some kind)) &&
  match node with
  | Word _ | Phrase _ => true
  | Range _ _ _ _ => true
  | AndOperation operands
  | OrOperation operands
  | UnknownOperation operands => forallb (kind_free self kind) operands
  | Not a | Prohibit a | Plus a => kind_free self kind a
  | Boost expr _ => kind_free self kind expr
  | Fuzzy term _ | Proximity term _ => kind_free self kind term
  | Group expr | FieldGroup expr => kind_free self kind expr
  | SearchField _ expr => kind_free self kind expr
  end.

(** No node of the tree is a search field. *)
Fixpoint search_field_free {Decimal : Type} (node : Node Decimal) : bool :=
  match node with
  | Word _ | Phrase _ => true
  | Range _ _ _ _ => true
  | AndOperation operands
  | OrOperation operands
  | UnknownOperation operands => forallb search_field_free operands
  | Not a | Prohibit a | Plus a => search_field_free a
  | Boost expr _ => search_field_free expr
  | Fuzzy term _ | Proximity term _ => search_field_free term
  | Group expr | FieldGroup expr => search_field_free expr
  | SearchField _ _ => false
  end.

(** No node of the tree is an unknown operation. *)
Fixpoint unknown_free {Decimal : Type} (node : Node Decimal) : bool :=
  match node with
  | Word _ | Phrase _ => true
  | Range _ _ _ _ => true
  | AndOperation operands
  | OrOperation operands => forallb unknown_free operands
  | UnknownOperation _ => false
  | Not a | Prohibit a | Plus a => unknown_free a
  | Boost expr _ => unknown_free expr
  | Fuzzy term _ | Proximity term _ => unknown_free term
  | Group expr | FieldGroup expr => unknown_free expr
  | SearchField _ expr => unknown_free expr
  end.

(** The three classes of prefix operators, and the class of item
    [visit_not] and [visit_plus] build for each. *)
Inductive UnaryClass : Type := CNot | CProhibit | CPlus.

Definition unary {Decimal : Type} (cls : UnaryClass) (a : Node Decimal)
  : Node Decimal :=
  match cls with
  | CNot => Not a
  | CProhibit => Prohibit a
  | CPlus => Plus a
  end.

Definition unary_item (cls : UnaryClass) : EOperation :=
  match cls with
  | CNot | CProhibit => CMustNot
  | CPlus => CMust
  end.

(** What a leaf searches for: the value of a word, the text of a phrase,
    the bounds of a range. *)
Inductive Leaf : Type :=
| LWord (q : string)
| LPhrase (phrase : string)
| LRange (kwargs : gmap string string).

(** The terms of a tree, from left to right, as the leaves the builder
    builds for them. *)
Fixpoint node_leaves {Decimal : Type} (node : Node Decimal) : list Leaf :=
  match node with
  | Word value => [LWord value]
  | Phrase value => [LPhrase value]
  | Range low high include_low include_high =>
      [LRange (range_kwargs low high include_low include_high)]
  | AndOperation operands
  | OrOperation operands
  | UnknownOperation operands => flat_map node_leaves operands
  | Not a | Prohibit a | Plus a => node_leaves a
  | Boost expr _ => node_leaves expr
  | Fuzzy term _ | Proximity term _ => node_leaves term
  | Group expr | FieldGroup expr => node_leaves expr
  | SearchField _ expr => node_leaves expr
  end.

(** The leaves of an item, from left to right. *)
Fixpoint item_leaves {Float : Type} (enode : Item Float) : list Leaf :=
  match enode with
  | EWord q _ _ _ => [LWord q]
  | EPhrase phrase _ _ _ => [LPhrase phrase]
  | ERange kwargs _ _ => [LRange kwargs]
  | EMust items _ | EShould items _ | EMustNot items _ =>
      flat_map item_leaves items
  | ENested _ items _ => item_leaves items
  | PyNone => []
  end.

(** How deep the search fields stand one in another: the greatest number
    of search fields on a path from the node down to a term. *)
Fixpoint search_field_levels {Decimal : Type} (node : Node Decimal) : nat :=
  match node with
  | Word _ | Phrase _ => 0
  | Range _ _ _ _ => 0
  | AndOperation operands
  | OrOperation operands
  | UnknownOperation operands => max_list (map search_field_levels operands)
  | Not a | Prohibit a | Plus a => search_field_levels a
  | Boost expr _ => search_field_levels expr
  | Fuzzy term _ | Proximity term _ => search_field_levels term
  | Group expr | FieldGroup expr => search_field_levels expr
  | SearchField _ expr => S (search_field_levels expr)
  end.




(** The node inside the groups and field groups around a node. *)
Fixpoint ungrouped {Decimal : Type} (node : Node Decimal) : Node Decimal :=
  match node with
  | Group expr | FieldGroup expr => ungrouped expr
  | _ => node
  end.

(** ** A runtime and three builders for the examples

    Forces and degrees are whole numbers here.  [lucene] writes a tree in
    the Lucene syntax, operands separated by one blank. *)

Definition float_of_Z (d : Z) : PrimFloat.float :=
  if (d <? 0)%Z then (- PrimFloat.of_uint63 (Uint63.of_Z (- d)))%float
  else PrimFloat.of_uint63 (Uint63.of_Z d).

Fixpoint lucene (node : Node Z) : string :=
  match node with
  | Word value | Phrase value => value
  | Range low high include_low include_high =>
      (if include_low then "[" else "{") +:+ low +:+ " TO " +:+ high +:+
      (if include_high then "]" else "}")
  | AndOperation operands => String.concat " AND " (map lucene operands)
  | OrOperation operands => String.concat " OR " (map lucene operands)
  | UnknownOperation operands => String.concat " " (map lucene operands)
  | Not a => "NOT " +:+ lucene a
  | Prohibit a => "-" +:+ lucene a
  | Plus a => "+" +:+ lucene a
  | Boost expr force => lucene expr +:+ "^" +:+ pretty force
  | Fuzzy term degree | Proximity term degree =>
      lucene term +:+ "~" +:+ pretty degree
  | Group expr | FieldGroup expr => "(" +:+ lucene expr +:+ ")"
  | SearchField name expr => name +:+ ":" +:+ lucene expr
  end.

#[global] Instance example_runtime : Runtime Z PrimFloat.float :=
  {| float := float_of_Z; str := lucene |}.

Definition should_builder : ElasticsearchQueryBuilder :=
  init SHOULD "text" None None.

Definition must_builder : ElasticsearchQueryBuilder :=
  init MUST "text" None None.

Definition other_builder : ElasticsearchQueryBuilder :=
  init "and" "text" None None.

(** * Properties *)

Section Properties.

Context {Decimal Float : Type} `{!Runtime Decimal Float}.

Implicit Types (self : ElasticsearchQueryBuilder).
Implicit Types (node child parent current_node : Node Decimal).
Implicit Types (operands : list (Node Decimal)).
Implicit Types (enode item : Item Float) (items : list (Item Float)).

(** ** Outcomes *)

Lemma bind_Return {A B : Type} (m : outcome A) (k : A → outcome B) (b : B) :
  bind m k = Return b ↔ ∃ a, m = Return a ∧ k a = Return b.
Proof.
  destruct m as [a|e]; simpl.
  - split; [eauto | intros (a' & [= <-] & ?); done].
  - split; [done | intros (a' & [=] & ?)].
Qed.

Lemma bind_Raise {A B : Type} (m : outcome A) (k : A → outcome B) (e : exn) :
  bind m k = Raise e ↔ m = Raise e ∨ ∃ a, m = Return a ∧ k a = Raise e.
Proof.
  destruct m as [a|e']; simpl.
  - split; [eauto | intros [[=] | (a' & [= <-] & ?)]; done].
  - split; [intros [= <-]; eauto | intros [[= <-] | (a' & [=] & ?)]; done].
Qed.

Lemma mapM_ext {A B : Type} (f g : A → outcome B) (l : list A) :
  (∀ x, x ∈ l → f x = g x) → mapM f l = mapM g l.
Proof.
  induction l as [|x l IH]; intros Hfg; simpl; [done|].
  rewrite Hfg by left. rewrite IH; [done|].
  intros y Hy. apply Hfg. by right.
Qed.

Lemma mapM_app {A B : Type} (f : A → outcome B) (l1 l2 : list A) :
  mapM f (l1 ++ l2) =
  let* ys1 := mapM f l1 in let* ys2 := mapM f l2 in Return (ys1 ++ ys2).
Proof.
  induction l1 as [|x l1 IH]; simpl.
  - by destruct (mapM f l2).
  - destruct (f x); simpl; [|done]. rewrite IH.
    destruct (mapM f l1); simpl; [|done]. by destruct (mapM f l2).
Qed.

Lemma mapM_Return {A B : Type} (f : A → outcome B) (l : list A) (ys : list B) :
  mapM f l = Return ys ↔ Forall2 (fun x y => f x = Return y) l ys.
Proof.
  revert ys. induction l as [|x l IH]; intros ys; simpl.
  - split; [intros [= <-]; constructor | by inversion 1].
  - split.
    + intros (y & Hy & (ys' & Hys & [= <-])%bind_Return)%bind_Return.
      constructor; [done | by apply IH].
    + inversion 1 as [|? y ? ys' Hy Hys]; subst. rewrite Hy. simpl.
      apply IH in Hys. by rewrite Hys.
Qed.

(** ** The depth of a tree *)

Lemma depth_pos node : 0 < depth node.
Proof. destruct node; simpl; lia. Qed.

Lemma depth_operands child operands :
  child ∈ operands →
  depth child ≤ foldr (fun c d => Nat.max (depth c) d) 0 operands.
Proof.
  induction operands as [|c operands IH]; inversion 1; subst; simpl; [lia|].
  specialize (IH ltac:(done)). lia.
Qed.

Lemma depth_children node child :
  child ∈ children node → depth child < depth node.
Proof.
  destruct node; simpl; intros Hin;
    try (apply depth_operands in Hin; lia);
    repeat (apply elem_of_cons in Hin as [->|Hin]; [simpl; lia|]);
    by apply elem_of_nil in Hin.
Qed.

(** Induction on a tree by the depth of its subtrees. *)
Lemma depth_ind (P : Node Decimal → Prop) :
  (∀ node, (∀ lower, depth lower < depth node → P lower) → P node) →
  ∀ node, P node.
Proof.
  intros step node. remember (depth node) as d eqn:Hd.
  revert node Hd. induction (lt_wf d) as [d _ IH]. intros node ->.
  apply step. intros lower Hlt. by apply (IH (depth lower)).
Qed.

(** ** [simplify_if_same] *)

(** The loop of the source: a child of the class of the current node is
    replaced by what the generator yields on its children, any other child
    is yielded. *)
Lemma simplify_child_eq current_node child :
  simplify_child current_node child =
  if bool_decide (type child = type current_node)
  then simplify_if_same (children child) current_node
  else [child].
Proof.
  unfold simplify_if_same.
  destruct child; simpl; case_bool_decide as Hty; try done;
    try (by rewrite app_nil_r).
  destruct current_node; simpl in *; try done.
Qed.

Lemma simplify_if_same_cons child (rest : list (Node Decimal)) current_node :
  simplify_if_same (child :: rest) current_node =
  (if bool_decide (type child = type current_node)
   then simplify_if_same (children child) current_node
   else [child]) ++ simplify_if_same rest current_node.
Proof. unfold simplify_if_same at 1. simpl. by rewrite simplify_child_eq. Qed.

Lemma simplify_if_same_app (l1 l2 : list (Node Decimal)) current_node :
  simplify_if_same (l1 ++ l2) current_node =
  simplify_if_same l1 current_node ++ simplify_if_same l2 current_node.
Proof. unfold simplify_if_same. apply flat_map_app. Qed.

Lemma elem_of_simplify_if_same (c : Node Decimal) (l : list (Node Decimal))
    current_node :
  c ∈ simplify_if_same l current_node ↔
  ∃ child, child ∈ l ∧ c ∈ simplify_child current_node child.
Proof.
  unfold simplify_if_same. rewrite list_elem_of_In, in_flat_map.
  by setoid_rewrite list_elem_of_In.
Qed.

(** What the generator yields is never of the class of the current node. *)
Lemma simplify_child_type current_node :
  ∀ child (c : Node Decimal), c ∈ simplify_child current_node child →
    type c ≠ type current_node.
Proof.
  induction child as [child IH] using depth_ind. intros c.
  rewrite simplify_child_eq. case_bool_decide as Hty.
  - intros (child' & Hin & Hc)%elem_of_simplify_if_same.
    eapply IH; [by apply depth_children | done].
  - by intros ->%list_elem_of_singleton.
Qed.

Lemma simplify_if_same_type (l : list (Node Decimal)) current_node
    (c : Node Decimal) :
  c ∈ simplify_if_same l current_node → type c ≠ type current_node.
Proof.
  intros (child & _ & Hc)%elem_of_simplify_if_same.
  by eapply simplify_child_type.
Qed.

Lemma simplify_child_depth current_node :
  ∀ child (c : Node Decimal), c ∈ simplify_child current_node child →
    depth c ≤ depth child.
Proof.
  induction child as [child IH] using depth_ind. intros c.
  rewrite simplify_child_eq. case_bool_decide as Hty.
  - intros (child' & Hin & Hc)%elem_of_simplify_if_same.
    apply depth_children in Hin as Hlt.
    specialize (IH child' Hlt c Hc). lia.
  - by intros ->%list_elem_of_singleton.
Qed.

Lemma simplify_if_same_depth node (c : Node Decimal) :
  c ∈ simplify_if_same (children node) node → depth c < depth node.
Proof.
  intros (child & Hin & Hc)%elem_of_simplify_if_same.
  apply depth_children in Hin. apply simplify_child_depth in Hc. lia.
Qed.

(** Children of other classes are left as they are. *)
Lemma simplify_if_same_id (l : list (Node Decimal)) current_node :
  Forall (fun child => type child ≠ type current_node) l →
  simplify_if_same l current_node = l.
Proof.
  induction 1 as [|child l Hty _ IH]; [done|].
  rewrite simplify_if_same_cons, IH. by rewrite bool_decide_eq_false_2.
Qed.


(** The generator looks at the class of the current node only. *)
Lemma simplify_child_current (n1 n2 : Node Decimal) :
  type n1 = type n2 → ∀ child, simplify_child n1 child = simplify_child n2 child.
Proof.
  intros Hty. induction child as [child IH] using depth_ind.
  rewrite !simplify_child_eq, Hty. case_bool_decide; [|done].
  pose proof (depth_children child) as Hlt.
  unfold simplify_if_same.
  induction (children child) as [|c l IHl]; simpl; [done|].
  rewrite IH by (apply Hlt; left). rewrite IHl; [done|].
  intros c' Hc'. apply Hlt. by right.
Qed.

Lemma simplify_if_same_current (n1 n2 : Node Decimal) (l : list (Node Decimal)) :
  type n1 = type n2 → simplify_if_same l n1 = simplify_if_same l n2.
Proof.
  intros Hty. unfold simplify_if_same.
  induction l as [|c l IH]; simpl; [done|].
  by rewrite (simplify_child_current n1 n2), IH.
Qed.

(** ** The classes of operations *)

(** [_is_must], [_is_should] and the generators look at the class of the
    current node only. *)
Lemma _is_must_type self (n1 n2 : Node Decimal) :
  type n1 = type n2 → _is_must self n1 = _is_must self n2.
Proof. unfold _is_must, isinstance. by intros ->. Qed.

Lemma _is_should_type self (n1 n2 : Node Decimal) :
  type n1 = type n2 → _is_should self n1 = _is_should self n2.
Proof. unfold _is_should, isinstance. by intros ->. Qed.

Lemma opposite_type self (p1 p2 child : Node Decimal) :
  type p1 = type p2 → opposite self p1 child = opposite self p2 child.
Proof.
  intros Hty. unfold opposite.
  by rewrite (_is_must_type self p1 p2), (_is_should_type self p1 p2).
Qed.

Lemma _yield_nested_children_type self (p1 p2 : Node Decimal)
    (l : list (Node Decimal)) :
  type p1 = type p2 →
  _yield_nested_children self p1 l = _yield_nested_children self p2 l.
Proof.
  intros Hty. induction l as [|c l IH]; simpl; [done|].
  by rewrite (opposite_type self p1 p2), IH.
Qed.

(** An operation of a kind opposite to another one is not of its class. *)
Lemma opposite_other_type self parent child :
  opposite self parent child = true → type child ≠ type parent.
Proof.
  unfold opposite, _is_should, _is_must, isinstance. intros Hopp Hty.
  rewrite Hty in Hopp.
  destruct (type parent); simpl in Hopp; try done;
    repeat case_bool_decide; simpl in *; try done; unfold SHOULD, MUST in *;
    congruence.
Qed.

(** The two tests of the source are the two boolean kinds. *)
Lemma _is_must_kind self node :
  _is_must self node = true ↔ boolean_kind self node = Some CMust.
Proof.
  unfold _is_must, isinstance, boolean_kind, built_by.
  destruct node; simpl; repeat case_bool_decide; simpl;
    unfold SHOULD, MUST in *; split; congruence.
Qed.

Lemma _is_should_kind self node :
  _is_should self node = true ↔ boolean_kind self node = Some CShould.
Proof.
  unfold _is_should, isinstance, boolean_kind, built_by.
  destruct node; simpl; repeat case_bool_decide; simpl;
    unfold SHOULD, MUST in *; split; congruence.
Qed.

Lemma boolean_kind_operation self (cls : OperationClass) operands :
  boolean_kind self (operation cls operands) = built_by self cls.
Proof. by destruct cls. Qed.

Lemma boolean_kind_cases self node (k : EOperation) :
  boolean_kind self node = Some k → k = CMust ∨ k = CShould.
Proof.
  unfold boolean_kind, built_by.
  destruct node; simpl; repeat case_bool_decide; intros [=]; auto.
Qed.

(** The test of [_yield_nested_children] holds of a parent and a child
    that have a boolean kind each, and not the same. *)
Lemma opposite_kinds self parent child :
  opposite self parent child = true ↔
  ∃ kind_parent kind_child,
    boolean_kind self parent = Some kind_parent ∧
    boolean_kind self child = Some kind_child ∧
    kind_parent ≠ kind_child.
Proof.
  unfold opposite. rewrite orb_true_iff, !andb_true_iff.
  rewrite !_is_must_kind, !_is_should_kind. split.
  - intros [[-> ->] | [-> ->]]; by eexists _, _.
  - intros (kp & kc & Hp & Hc & Hne).
    destruct (boolean_kind_cases self parent kp Hp) as [-> | ->],
      (boolean_kind_cases self child kc Hc) as [-> | ->]; try done; auto.
Qed.

Lemma same_kind_not_opposite self (cls : OperationClass) (ecls : EOperation)
    operands child :
  built_by self cls = Some ecls →
  (∀ kind, boolean_kind self child = Some kind → kind = ecls) →
  opposite self (operation cls operands) child = false.
Proof.
  intros Hcls Hkind.
  destruct (opposite self (operation cls operands) child) eqn:Hopp; [|done].
  apply opposite_kinds in Hopp as (kp & kc & Hp & Hc & Hne).
  rewrite boolean_kind_operation, Hcls in Hp. injection Hp as <-.
  by apply Hkind in Hc.
Qed.

(** ** The list comprehension over the nested children *)

Lemma visit_each_ext self (v1 v2 : Node Decimal → outcome (Item Float))
    parent (l : list (Node Decimal)) :
  (∀ c, c ∈ l → v1 c = v2 c) →
  visit_each v1 (_yield_nested_children self parent l) =
  visit_each v2 (_yield_nested_children self parent l).
Proof.
  induction l as [|c l IH]; intros Hv; simpl; [done|].
  destruct (opposite self parent c).
  - by destruct (_get_operator_extract c 8).
  - simpl. rewrite Hv by left. rewrite IH; [done|].
    intros c' Hc'. apply Hv. by right.
Qed.

Lemma visit_each_Return self (v : Node Decimal → outcome (Item Float))
    parent (l : list (Node Decimal)) items :
  visit_each v (_yield_nested_children self parent l) = Return items ↔
  Forall (fun c => opposite self parent c = false) l ∧ mapM v l = Return items.
Proof.
  revert items. induction l as [|c l IH]; intros items; simpl.
  - split; [intros ->; by split | by intros [_ ->]].
  - destruct (opposite self parent c) eqn:Hopp.
    + split.
      * by destruct (_get_operator_extract c 8).
      * intros [Hall _]. inversion Hall; congruence.
    + simpl. rewrite Forall_cons. split.
      * intros (item & Hv & (items' & Hrest & [= <-])%bind_Return)%bind_Return.
        apply IH in Hrest as [Hall Hm]. split; [done|].
        rewrite Hv. simpl. by rewrite Hm.
      * intros [[_ Hall] Hm].
        apply bind_Return in Hm
          as (item & Hv & (items' & Hm & [= <-])%bind_Return).
        rewrite Hv. simpl. by rewrite (proj2 (IH items') (conj Hall Hm)).
Qed.


(** After children that pass the test and are visited with success, the
    comprehension goes on with the children left. *)
Lemma visit_each_prefix self (v : Node Decimal → outcome (Item Float))
    parent (pre l : list (Node Decimal)) items :
  Forall (fun c => opposite self parent c = false) pre →
  mapM v pre = Return items →
  visit_each v (_yield_nested_children self parent (pre ++ l)) =
  let* rest := visit_each v (_yield_nested_children self parent l) in
  Return (items ++ rest).
Proof.
  intros Hpre. revert items.
  induction Hpre as [|c pre Hc _ IH]; intros items; simpl.
  - intros [= <-].
    by destruct (visit_each v (_yield_nested_children self parent l)).
  - intros (item & Hv & (items' & Hm & [= <-])%bind_Return)%bind_Return.
    rewrite Hc. simpl. rewrite Hv. simpl. rewrite (IH items' Hm).
    by destruct (visit_each v (_yield_nested_children self parent l)).
Qed.

(** ** The recursion of [visit] *)

(** A method calls [self.visit] only on nodes strictly below its own. *)
Lemma visit_node_ext self (v1 v2 : Node Decimal → outcome (Item Float)) node :
  (∀ c, depth c < depth node → v1 c = v2 c) →
  visit_node self v1 node = visit_node self v2 node.
Proof.
  intros Hv.
  assert (∀ cls, _binary_operation self v1 cls node =
                 _binary_operation self v2 cls node) as Hbin.
  { intros cls. unfold _binary_operation.
    erewrite visit_each_ext; [done|].
    intros c Hc. apply Hv. by apply simplify_if_same_depth. }
  assert (visit_not v1 node = visit_not v2 node) as Hnot.
  { unfold visit_not. erewrite mapM_ext; [done|].
    intros c Hc. apply Hv. by apply simplify_if_same_depth. }
  destruct node; simpl; try done;
    unfold visit_and_operation, visit_or_operation, visit_unknown_operation,
      visit_prohibit, visit_plus, _must_operation, _should_operation,
      visit_boost, visit_fuzzy, visit_proximity, visit_group,
      visit_field_group, visit_search_field;
    rewrite ?Hbin, ?Hnot; try done;
    rewrite Hv by (simpl; lia); done.
Qed.

(** More room than the depth of the tree changes nothing. *)
Lemma visit_enough self (limit : nat) :
  ∀ node, depth node ≤ limit → visit self limit node = compile self node.
Proof.
  unfold compile.
  induction (lt_wf limit) as [limit _ IH]. intros node Hle.
  pose proof (depth_pos node) as Hpos.
  destruct limit as [|limit]; [lia|].
  destruct (depth node) as [|d] eqn:Hd; [lia|]. simpl.
  apply visit_node_ext. intros c Hc.
  rewrite (IH limit) by lia. rewrite (IH d) by lia. done.
Qed.

(** The compilation never runs out of room: it is the method of the class
    of the node, with the compilation itself for [self.visit]. *)
Lemma compile_eq self node :
  compile self node = visit_node self (compile self) node.
Proof.
  unfold compile at 1. pose proof (depth_pos node) as Hpos.
  destruct (depth node) as [|d] eqn:Hd; [lia|]. simpl.
  apply visit_node_ext. intros c Hc. apply visit_enough. lia.
Qed.

(** The compilation of each class of node. *)

Lemma compile_and self operands :
  compile self (AndOperation operands) =
  _binary_operation self (compile self) CMust (AndOperation operands).
Proof. by rewrite compile_eq. Qed.

Lemma compile_or self operands :
  compile self (OrOperation operands) =
  _binary_operation self (compile self) CShould (OrOperation operands).
Proof. by rewrite compile_eq. Qed.

Lemma compile_unknown self operands :
  compile self (UnknownOperation operands) =
  visit_unknown_operation self (compile self) (UnknownOperation operands).
Proof. by rewrite compile_eq. Qed.

Lemma compile_plus self (a : Node Decimal) :
  compile self (Plus a) = _binary_operation self (compile self) CMust (Plus a).
Proof. by rewrite compile_eq. Qed.

Lemma compile_not self (a : Node Decimal) :
  compile self (Not a) = visit_not (compile self) (Not a).
Proof. by rewrite compile_eq. Qed.

Lemma compile_prohibit self (a : Node Decimal) :
  compile self (Prohibit a) = visit_not (compile self) (Prohibit a).
Proof. by rewrite compile_eq. Qed.

Lemma compile_group self (expr : Node Decimal) :
  compile self (Group expr) = compile self expr.
Proof. by rewrite compile_eq. Qed.

Lemma compile_field_group self (expr : Node Decimal) :
  compile self (FieldGroup expr) = compile self expr.
Proof.
  rewrite compile_eq. simpl. unfold visit_field_group.
  by destruct (compile self expr).
Qed.

Lemma type_operation (cls : OperationClass) operands :
  type (operation cls operands) = operation_type cls.
Proof. by destruct cls. Qed.

Lemma children_operation (cls : OperationClass) operands :
  children (operation cls operands) = operands.
Proof. by destruct cls. Qed.

Lemma compile_operation self (cls : OperationClass) operands :
  compile self (operation cls operands) =
  match built_by self cls with
  | Some ecls =>
      _binary_operation self (compile self) ecls (operation cls operands)
  | None => Return PyNone
  end.
Proof.
  destruct cls; simpl; rewrite compile_eq; simpl; try done.
  unfold visit_unknown_operation. by repeat case_bool_decide.
Qed.

(** An operation over children that are neither of its class nor of the
    opposite kind is built from the items of its children, in their order. *)
Lemma compile_operation_flat self (cls : OperationClass) (ecls : EOperation)
    operands items :
  built_by self cls = Some ecls →
  Forall (fun child => type child ≠ operation_type cls ∧
                       opposite self (operation cls []) child = false)
         operands →
  mapM (compile self) operands = Return items →
  compile self (operation cls operands) = Return (build ecls items).
Proof.
  intros Hcls Hall Hitems. rewrite compile_operation, Hcls.
  unfold _binary_operation. rewrite children_operation.
  rewrite simplify_if_same_id.
  - rewrite (proj2 (visit_each_Return self _ _ operands items)); [done|].
    split; [|done]. eapply Forall_impl; [done|]. intros child [_ Hopp].
    rewrite <- Hopp. apply opposite_type. by rewrite !type_operation.
  - eapply Forall_impl; [done|]. intros child [Hty _].
    by rewrite type_operation.
Qed.

(** The children of a child of the class of its parent take its place
    among the children of the parent. *)
Lemma compile_operation_splice self (cls : OperationClass)
    (pre inner post : list (Node Decimal)) :
  compile self (operation cls (pre ++ operation cls inner :: post)) =
  compile self (operation cls (pre ++ inner ++ post)).
Proof.
  rewrite !compile_operation. destruct (built_by self cls) as [ecls|]; [|done].
  unfold _binary_operation. rewrite !children_operation.
  set (p1 := operation cls (pre ++ operation cls inner :: post)).
  set (p2 := operation cls (pre ++ inner ++ post)).
  assert (type p1 = type p2) as Hty
    by (unfold p1, p2; by rewrite !type_operation).
  rewrite !simplify_if_same_app, simplify_if_same_cons.
  rewrite bool_decide_eq_true_2 by (unfold p1; by rewrite !type_operation).
  rewrite children_operation.
  rewrite (simplify_if_same_current p1 p2) by done.
  rewrite (simplify_if_same_current p1 p2 inner) by done.
  rewrite (simplify_if_same_current p1 p2 post) by done.
  by rewrite (_yield_nested_children_type self p1 p2).
Qed.

(** ** Flattening (C2) *)

(** C2.  Flattening of operations of the same class.  For an operation of
    any class: a child of the class of its parent is replaced by its own
    children before the items are built, wherever it stands and however
    deep the nesting.  For operands A, B, C, D that are neither of the
    class of the operation nor of the opposite kind, and that compile to
    A', B', C', D': the operation over A and the operation over B and the
    operation over C and D compiles to one item over A', B', C', D' in this
    order, and both associations of three operands compile to one item
    over A', B', C'.  The item is an [EMust] for [AndOperation] and an
    [EShould] for [OrOperation]. *)
Theorem same_class_children_are_spliced self (cls : OperationClass)
    (ecls : EOperation) (A B C D : Node Decimal) (A' B' C' D' : Item Float) :
  built_by self cls = Some ecls →
  Forall2 (fun operand item =>
             type operand ≠ operation_type cls ∧
             (∀ kind, boolean_kind self operand = Some kind → kind = ecls) ∧
             compile self operand = Return item)
          [A; B; C; D] [A'; B'; C'; D'] →
  (∀ pre inner post,
     compile self (operation cls (pre ++ operation cls inner :: post)) =
     compile self (operation cls (pre ++ inner ++ post))) ∧
  compile self (operation cls [A; operation cls [B; operation cls [C; D]]]) =
    Return (build ecls [A'; B'; C'; D']) ∧
  compile self (operation cls [A; operation cls [B; C]]) =
    Return (build ecls [A'; B'; C']) ∧
  compile self (operation cls [operation cls [A; B]; C]) =
    Return (build ecls [A'; B'; C']).
Proof.
  intros Hcls Hall.
  assert (Forall2 (fun operand item =>
             type operand ≠ operation_type cls ∧
             opposite self (operation cls []) operand = false ∧
             compile self operand = Return item)
          [A; B; C; D] [A'; B'; C'; D']) as Hall'.
  { eapply Forall2_impl; [done|]. intros operand item (Hty & Hkind & Hitem).
    split; [done|]. split; [by eapply same_kind_not_opposite | done]. }
  clear Hall.
  apply Forall2_cons in Hall' as [(HtA & HoA & HA) Hall].
  apply Forall2_cons in Hall as [(HtB & HoB & HB) Hall].
  apply Forall2_cons in Hall as [(HtC & HoC & HC) Hall].
  apply Forall2_cons in Hall as [(HtD & HoD & HD) _].
  pose proof (compile_operation_splice self cls) as Hsplice.
  split; [done|].
  pose proof (Hsplice [A] [B; operation cls [C; D]] []) as H4.
  pose proof (Hsplice [A; B] [C; D] []) as H4'.
  pose proof (Hsplice [A] [B; C] []) as H3.
  pose proof (Hsplice [] [A; B] [C]) as H3'.
  cbn [app] in H4, H4', H3, H3'.
  rewrite H4, H4', H3, H3'.
  split; [|split]; (apply compile_operation_flat; [done|by repeat constructor|]);
    simpl; by rewrite ?HA, ?HB, ?HC, ?HD.
Qed.

(** ** Negation (C3) *)

(** C3.  Chains of negations of one class are simplified: a [Not] whose
    child is a [Not] over A compiles to what the [Not] over A compiles to,
    an [EMustNot] over the item of A and not an [EMustNot] over an
    [EMustNot], and likewise for [Prohibit].  The source applies
    [simplify_if_same] in [visit_not], against the docstring of
    [simplify_if_same]. *)
Theorem double_negation_is_simplified self (a : Node Decimal) :
  compile self (Not (Not a)) = compile self (Not a) ∧
  compile self (Prohibit (Prohibit a)) = compile self (Prohibit a) ∧
  compile self (Not (Not (Word "a"))) =
    Return (EMustNot [EWord "a" (default_field self) [] no_attrs] no_attrs).
Proof.
  split; [|split].
  - rewrite !compile_not. unfold visit_not. simpl children.
    rewrite simplify_if_same_cons, bool_decide_eq_true_2 by done.
    simpl children. rewrite app_nil_r.
    by rewrite (simplify_if_same_current (Not (Not a)) (Not a)).
  - rewrite !compile_prohibit. unfold visit_not. simpl children.
    rewrite simplify_if_same_cons, bool_decide_eq_true_2 by done.
    simpl children. rewrite app_nil_r.
    by rewrite (simplify_if_same_current (Prohibit (Prohibit a)) (Prohibit a)).
  - reflexivity.
Qed.

(** ** The default operator (C6, C9) *)

Lemma _yield_nested_children_ext self (p1 p2 : Node Decimal)
    (l : list (Node Decimal)) :
  _is_must self p1 = _is_must self p2 →
  _is_should self p1 = _is_should self p2 →
  _yield_nested_children self p1 l = _yield_nested_children self p2 l.
Proof.
  intros Hmust Hshould. induction l as [|c l IH]; simpl; [done|].
  unfold opposite. by rewrite Hmust, Hshould, IH.
Qed.

(** C6, amended.  With the operator SHOULD, an unknown operation none of
    whose operands is itself an [OrOperation] or an [UnknownOperation]
    compiles to what the [OrOperation] over the same operands compiles to;
    with the operator MUST, an unknown operation none of whose operands is
    itself an [AndOperation] or an [UnknownOperation] compiles to what the
    [AndOperation] over the same operands compiles to. *)
Theorem unknown_operation_as_default self (cls : OperationClass) operands :
  default_operator self = SHOULD ∧ cls = COr ∨
  default_operator self = MUST ∧ cls = CAnd →
  Forall (fun operand => type operand ≠ operation_type cls ∧
                         type operand ≠ TUnknownOperation) operands →
  compile self (UnknownOperation operands) =
  compile self (operation cls operands).
Proof.
  intros Hop Hall.
  change (UnknownOperation operands) with (operation CUnknown operands).
  rewrite !compile_operation.
  assert (built_by self CUnknown = built_by self cls ∧
          _is_must self (operation CUnknown operands) =
            _is_must self (operation cls operands) ∧
          _is_should self (operation CUnknown operands) =
            _is_should self (operation cls operands)) as (-> & Hmust & Hshould).
  { unfold _is_must, _is_should, isinstance.
    destruct Hop as [[Hop ->] | [Hop ->]]; simpl; rewrite Hop;
      by repeat case_bool_decide. }
  destruct (built_by self cls) as [ecls|]; [|done].
  unfold _binary_operation. rewrite !children_operation.
  rewrite !simplify_if_same_id.
  - by rewrite (_yield_nested_children_ext self _ (operation cls operands)).
  - eapply Forall_impl; [done|]. intros c [Hty _]. by rewrite type_operation.
  - eapply Forall_impl; [done|]. by intros c [_ Hty].
Qed.

(** C9.  With an operator that is neither 'should' nor 'must', the
    compilation of an unknown operation returns [None]: nothing is raised
    and no item is built. *)
Theorem unknown_operation_without_operator self operands :
  default_operator self ≠ SHOULD →
  default_operator self ≠ MUST →
  compile self (UnknownOperation operands) = Return PyNone.
Proof.
  intros Hshould Hmust. rewrite compile_unknown.
  unfold visit_unknown_operation. by rewrite !bool_decide_eq_false_2.
Qed.

(** ** Ranges (C7) *)

(** C7.  The item of a range has one key for the low bound, [gte] when the
    bound is included and [gt] otherwise, with the low value, and one key
    for the high bound, [lte] when the bound is included and [lt] otherwise,
    with the high value; it has no other key.  So a range with both bounds
    included has the keys gte and lte, and a range with both bounds
    excluded the keys gt and lt. *)
Theorem range_item_bounds self (low high : string)
    (include_low include_high : bool) :
  ∃ kwargs,
    compile self (Range low high include_low include_high) =
      Return (ERange kwargs [] no_attrs) ∧
    kwargs !! (if include_low then "gte" else "gt") = Some low ∧
    kwargs !! (if include_low then "gt" else "gte") = None ∧
    kwargs !! (if include_high then "lte" else "lt") = Some high ∧
    kwargs !! (if include_high then "lt" else "lte") = None ∧
    dom kwargs = {[ if include_low then "gte" else "gt";
                    if include_high then "lte" else "lt" ]} ∧
    compile self (Range "1" "10" true true) =
      Return (ERange {[ "gte" := "1"; "lte" := "10" ]} [] no_attrs) ∧
    compile self (Range "1" "10" false false) =
      Return (ERange {[ "gt" := "1"; "lt" := "10" ]} [] no_attrs).
Proof.
  exists (range_kwargs low high include_low include_high).
  split; [by rewrite compile_eq|].
  unfold range_kwargs.
  repeat split; try (by rewrite compile_eq);
    destruct include_low, include_high; try done;
    rewrite !dom_insert_L, dom_empty_L; set_solver.
Qed.

(** ** Modifiers (C8) *)

Lemma setattr_with_attrs (update : attrs Float → attrs Float) enode
    (a : attrs Float) :
  item_attrs enode = Some a →
  setattr update enode = Return (with_attrs (update a) enode).
Proof. destruct enode; simpl; intros [= <-]; done. Qed.

(** C8.  When the node under a boost compiles to an item, the boost
    compiles to this item with [boost] set to the float of the force, its
    other attributes and all the rest of it as they were; a fuzzy search
    compiles to the item of its term with [fuzziness] set to the float of
    the degree, and a proximity search to the item of its term with [slop]
    set to the float of the degree, in the same way. *)
Theorem modifiers_set_one_attribute self (expr : Node Decimal)
    (amount : Decimal) enode :
  compile self expr = Return enode →
  enode ≠ PyNone →
  ∃ a, item_attrs enode = Some a ∧
    compile self (Boost expr amount) =
      Return (with_attrs {| boost := Some (float amount);
                            fuzziness := fuzziness a;
                            slop := slop a |} enode) ∧
    compile self (Fuzzy expr amount) =
      Return (with_attrs {| boost := boost a;
                            fuzziness := Some (float amount);
                            slop := slop a |} enode) ∧
    compile self (Proximity expr amount) =
      Return (with_attrs {| boost := boost a;
                            fuzziness := fuzziness a;
                            slop := Some (float amount) |} enode).
Proof.
  intros Hexpr Hitem.
  assert (∃ a, item_attrs enode = Some a) as [a Ha]
    by (destruct enode; simpl; eauto; done).
  exists a. split; [done|].
  repeat split; rewrite compile_eq; simpl;
    unfold visit_boost, visit_fuzzy, visit_proximity; rewrite Hexpr; simpl;
    by rewrite (setattr_with_attrs _ _ a).
Qed.

(** ** Items *)

(** Induction on an item, with the property at hand for each item of a
    composite. *)
Lemma Item_nested_ind (P : Item Float → Prop) :
  (∀ q d fields a, P (EWord q d fields a)) →
  (∀ p d fields a, P (EPhrase p d fields a)) →
  (∀ k fields a, P (ERange k fields a)) →
  (∀ items a, Forall P items → P (EMust items a)) →
  (∀ items a, Forall P items → P (EShould items a)) →
  (∀ items a, Forall P items → P (EMustNot items a)) →
  (∀ path enode a, P enode → P (ENested path enode a)) →
  P PyNone →
  ∀ enode, P enode.
Proof.
  intros HWord HPhrase HRange HMust HShould HMustNot HNested HNone.
  fix IH 1. intros [q d f a|p d f a|k f a|items a|items a|items a|path enode a|].
  - apply HWord.
  - apply HPhrase.
  - apply HRange.
  - apply HMust. induction items as [|item items IHitems]; constructor;
      [apply IH | apply IHitems].
  - apply HShould. induction items as [|item items IHitems]; constructor;
      [apply IH | apply IHitems].
  - apply HMustNot. induction items as [|item items IHitems]; constructor;
      [apply IH | apply IHitems].
  - apply HNested, IH.
  - apply HNone.
Qed.

(** What an item is made of besides the fields of its leaves tells
    whether a [None] or an [ENested] stands in it. *)
Lemma no_none_without_fields :
  ∀ enode : Item Float, no_none (without_fields enode) = no_none enode.
Proof.
  assert (∀ items : list (Item Float),
            Forall (fun item => no_none (without_fields item) = no_none item)
                   items →
            forallb no_none (map without_fields items) =
            forallb no_none items) as Hitems.
  { induction 1 as [|item items Hitem _ IH]; simpl; [done|].
    by rewrite Hitem, IH. }
  apply (Item_nested_ind (fun enode =>
    no_none (without_fields enode) = no_none enode)); simpl; try done;
    intros; by apply Hitems.
Qed.

Lemma no_nested_without_fields :
  ∀ enode : Item Float, no_nested (without_fields enode) = no_nested enode.
Proof.
  assert (∀ items : list (Item Float),
            Forall (fun item => no_nested (without_fields item) = no_nested item)
                   items →
            forallb no_nested (map without_fields items) =
            forallb no_nested items) as Hitems.
  { induction 1 as [|item items Hitem _ IH]; simpl; [done|].
    by rewrite Hitem, IH. }
  apply (Item_nested_ind (fun enode =>
    no_nested (without_fields enode) = no_nested enode)); simpl; try done;
    intros; by apply Hitems.
Qed.

(** Where neither a [None] nor an [ENested] stands in the item, the field
    name is set in every leaf: each leaf has it at the front of its fields,
    and the item is otherwise as it was. *)
Lemma _set_search_field_in_all_children_spec (field_name : string) :
  ∀ enode, no_none enode = true → no_nested enode = true →
    ∃ scoped,
      _set_search_field_in_all_children enode field_name = Return scoped ∧
      no_none scoped = true ∧
      leaf_fields scoped = map (cons field_name) (leaf_fields enode) ∧
      without_fields scoped = without_fields enode.
Proof.
  set (P := fun enode : Item Float =>
    no_none enode = true → no_nested enode = true →
    ∃ scoped,
      _set_search_field_in_all_children enode field_name = Return scoped ∧
      no_none scoped = true ∧
      leaf_fields scoped = map (cons field_name) (leaf_fields enode) ∧
      without_fields scoped = without_fields enode).
  assert (∀ items, Forall P items →
    forallb no_none items = true → forallb no_nested items = true →
    ∃ scoped,
      mapM (fun item => _set_search_field_in_all_children item field_name)
        items = Return scoped ∧
      forallb no_none scoped = true ∧
      flat_map leaf_fields scoped =
        map (cons field_name) (flat_map leaf_fields items) ∧
      map without_fields scoped = map without_fields items) as Hitems.
  { induction 1 as [|item items Hitem _ IH]; simpl; intros Hnone Hnested.
    - by exists [].
    - apply andb_true_iff in Hnone as [Hnone1 Hnone2].
      apply andb_true_iff in Hnested as [Hnested1 Hnested2].
      destruct (Hitem Hnone1 Hnested1) as (item' & -> & Hn1 & Hl1 & Hw1).
      destruct (IH Hnone2 Hnested2) as (items' & -> & Hn2 & Hl2 & Hw2).
      exists (item' :: items'). simpl.
      rewrite Hn1, Hn2, Hl1, Hl2, Hw1, Hw2, map_app. done. }
  apply (Item_nested_ind P); unfold P; simpl.
  - intros q d fields a _ _. by eexists.
  - intros p d fields a _ _. by eexists.
  - intros k fields a _ _. by eexists.
  - intros items a Hall Hnone Hnested.
    destruct (Hitems items Hall Hnone Hnested) as (items' & -> & Hn & Hl & Hw).
    exists (EMust items' a). simpl. by rewrite Hw.
  - intros items a Hall Hnone Hnested.
    destruct (Hitems items Hall Hnone Hnested) as (items' & -> & Hn & Hl & Hw).
    exists (EShould items' a). simpl. by rewrite Hw.
  - intros items a Hall Hnone Hnested.
    destruct (Hitems items Hall Hnone Hnested) as (items' & -> & Hn & Hl & Hw).
    exists (EMustNot items' a). simpl. by rewrite Hw.
  - done.
  - done.
Qed.

(** The field name is set only where neither a [None] nor an [ENested]
    stands in the item. *)
Lemma _set_search_field_in_all_children_inv (field_name : string) :
  ∀ enode scoped,
    _set_search_field_in_all_children enode field_name = Return scoped →
    no_none enode = true ∧ no_nested enode = true.
Proof.
  set (P := fun enode : Item Float => ∀ scoped,
    _set_search_field_in_all_children enode field_name = Return scoped →
    no_none enode = true ∧ no_nested enode = true).
  assert (∀ items scoped, Forall P items →
    mapM (fun item => _set_search_field_in_all_children item field_name)
      items = Return scoped →
    forallb no_none items = true ∧ forallb no_nested items = true) as Hitems.
  { intros items scoped Hall. revert scoped.
    induction Hall as [|item items Hitem _ IH]; intros scoped; simpl; [done|].
    intros (item' & Hitem' & (items' & Hitems' & _)%bind_Return)%bind_Return.
    destruct (Hitem item' Hitem') as [-> ->].
    destruct (IH items' Hitems') as [-> ->]. done. }
  apply (Item_nested_ind P); unfold P; simpl; try done.
  - intros items a Hall scoped (items' & Hitems' & _)%bind_Return. eauto.
  - intros items a Hall scoped (items' & Hitems' & _)%bind_Return. eauto.
  - intros items a Hall scoped (items' & Hitems' & _)%bind_Return. eauto.
Qed.

Lemma _set_search_field_in_all_children_Return (field_name : string)
    enode scoped :
  _set_search_field_in_all_children enode field_name = Return scoped →
  leaf_fields scoped = map (cons field_name) (leaf_fields enode) ∧
  without_fields scoped = without_fields enode.
Proof.
  intros Hscoped.
  destruct (_set_search_field_in_all_children_inv _ _ _ Hscoped)
    as [Hnone Hnested].
  destruct (_set_search_field_in_all_children_spec field_name enode
              Hnone Hnested) as (scoped' & Hscoped' & _ & Hleaves & Hrest).
  by replace scoped with scoped' by congruence.
Qed.

(** The item with the field name set holds no [None] and no [ENested]. *)
Lemma _set_search_field_in_all_children_plain (field_name : string)
    enode scoped :
  _set_search_field_in_all_children enode field_name = Return scoped →
  no_none scoped = true ∧ no_nested scoped = true.
Proof.
  intros Hscoped.
  destruct (_set_search_field_in_all_children_inv _ _ _ Hscoped)
    as [Hnone Hnested].
  apply _set_search_field_in_all_children_Return in Hscoped as [_ Hrest].
  rewrite <- (no_none_without_fields scoped),
    <- (no_nested_without_fields scoped), Hrest.
  by rewrite no_none_without_fields, no_nested_without_fields.
Qed.

(** Where no [None] stands in the item and an [ENested] does, the loop
    over the item an [ENested] wraps raises [TypeError]. *)
Lemma _set_search_field_in_all_children_TypeError (field_name : string) :
  ∀ enode, no_none enode = true → no_nested enode = false →
    _set_search_field_in_all_children enode field_name = Raise TypeError.
Proof.
  set (P := fun enode : Item Float =>
    no_none enode = true → no_nested enode = false →
    _set_search_field_in_all_children enode field_name = Raise TypeError).
  assert (∀ items, Forall P items →
    forallb no_none items = true → forallb no_nested items = false →
    mapM (fun item => _set_search_field_in_all_children item field_name)
      items = Raise TypeError) as Hitems.
  { induction 1 as [|item items Hitem _ IH]; simpl; intros Hnone Hnested;
      [done|].
    apply andb_true_iff in Hnone as [Hnone1 Hnone2].
    destruct (no_nested item) eqn:Hnested1.
    - destruct (_set_search_field_in_all_children_spec field_name item
                  Hnone1 Hnested1) as (item' & -> & _).
      simpl. by rewrite (IH Hnone2 Hnested).
    - by rewrite (Hitem Hnone1 Hnested1). }
  apply (Item_nested_ind P); unfold P; simpl; try done.
  - intros items a Hall Hnone Hnested. by rewrite (Hitems items Hall).
  - intros items a Hall Hnone Hnested. by rewrite (Hitems items Hall).
  - intros items a Hall Hnone Hnested. by rewrite (Hitems items Hall).
Qed.

Lemma setattr_no_none (update : attrs Float → attrs Float) enode enode' :
  no_none enode = true →
  setattr update enode = Return enode' → no_none enode' = true.
Proof. destruct enode; simpl; intros Hnone [= <-]; done. Qed.

Lemma setattr_Return (update : attrs Float → attrs Float) enode :
  no_none enode = true → ∃ enode', setattr update enode = Return enode'.
Proof. destruct enode; simpl; intros Hnone; by eauto. Qed.

(** ** No [None] with a known operator *)

Lemma mapM_compile_forallb self (P : Item Float → bool)
    (l : list (Node Decimal)) items :
  (∀ c enode, c ∈ l → compile self c = Return enode → P enode = true) →
  mapM (compile self) l = Return items →
  forallb P items = true.
Proof.
  intros HP Hitems. apply mapM_Return in Hitems.
  induction Hitems as [|c enode l items Hc _ IHl]; simpl; [done|].
  rewrite (HP c enode) by (done || left). simpl.
  apply IHl. intros c' enode' Hin. apply HP. by right.
Qed.

Lemma _binary_operation_no_none self (cls : EOperation) node enode :
  (∀ c, depth c < depth node →
     ∀ enode, compile self c = Return enode → no_none enode = true) →
  _binary_operation self (compile self) cls node = Return enode →
  no_none enode = true.
Proof.
  intros IH (items & Hitems & [= <-])%bind_Return.
  apply visit_each_Return in Hitems as [_ Hitems].
  apply (mapM_compile_forallb self no_none) in Hitems.
  - by destruct cls.
  - intros c enode' Hin. apply IH. by apply simplify_if_same_depth.
Qed.

Lemma compile_no_none self :
  known_operator self →
  ∀ node enode, compile self node = Return enode → no_none enode = true.
Proof.
  intros Hop. induction node as [node IH] using depth_ind. intros enode.
  rewrite compile_eq.
  destruct node; simpl;
    unfold visit_word, visit_phrase, visit_range, visit_and_operation,
      visit_or_operation, visit_prohibit, visit_plus, _must_operation,
      _should_operation, visit_group, visit_field_group.
  - by intros [= <-].
  - by intros [= <-].
  - by intros [= <-].
  - by apply _binary_operation_no_none.
  - by apply _binary_operation_no_none.
  - unfold visit_unknown_operation, _should_operation, _must_operation.
    destruct Hop as [Hop|Hop]; rewrite Hop;
      repeat case_bool_decide; try done;
      by apply _binary_operation_no_none.
  - intros (items & Hitems & [= <-])%bind_Return. simpl.
    eapply mapM_compile_forallb; [|done].
    intros c enode Hin. apply IH. by apply simplify_if_same_depth.
  - intros (items & Hitems & [= <-])%bind_Return. simpl.
    eapply mapM_compile_forallb; [|done].
    intros c enode Hin. apply IH. by apply simplify_if_same_depth.
  - by apply _binary_operation_no_none.
  - intros (inner & Hinner & Hset)%bind_Return.
    eapply setattr_no_none; [|done]. by apply (IH node); [simpl; lia|].
  - intros (inner & Hinner & Hset)%bind_Return.
    eapply setattr_no_none; [|done]. by apply (IH node); [simpl; lia|].
  - intros (inner & Hinner & Hset)%bind_Return.
    eapply setattr_no_none; [|done]. by apply (IH node); [simpl; lia|].
  - apply IH. simpl; lia.
  - intros (inner & Hinner & [= <-])%bind_Return.
    by apply (IH node); [simpl; lia|].
  - unfold visit_search_field.
    intros (inner & Hinner & Hset)%bind_Return.
    destruct (_set_search_field_in_all_children inner name)
      as [scoped|] eqn:Hscoped;
      [|by destruct (_is_nested (SearchField name node))].
    apply _set_search_field_in_all_children_plain in Hscoped as [Hnone _].
    destruct (_is_nested _); simpl in Hset; by injection Hset as <-.
Qed.

(** ** Properties of trees that go down to the nested children *)

(** A property of trees that goes from a node to its children goes to the
    children [simplify_if_same] yields. *)
Lemma simplify_if_same_closed (Q : Node Decimal → Prop) :
  (∀ node child, Q node → child ∈ children node → Q child) →
  ∀ node (c : Node Decimal),
    Q node → c ∈ simplify_if_same (children node) node → Q c.
Proof.
  intros Hclosed.
  assert (∀ current_node child (c : Node Decimal),
            Q child → c ∈ simplify_child current_node child → Q c) as Hchild.
  { intros current_node. induction child as [child IH] using depth_ind.
    intros c HQ. rewrite simplify_child_eq. case_bool_decide.
    - intros (child' & Hin & Hc)%elem_of_simplify_if_same.
      eapply (IH child'); [by apply depth_children | by eapply Hclosed | done].
    - by intros ->%list_elem_of_singleton. }
  intros node c HQ (child & Hin & Hc)%elem_of_simplify_if_same.
  eapply Hchild; [by eapply Hclosed | done].
Qed.

Lemma forallb_elem_of {A : Type} (f : A → bool) (l : list A) (x : A) :
  forallb f l = true → x ∈ l → f x = true.
Proof.
  rewrite forallb_forall. intros Hall Hin. by apply Hall, list_elem_of_In.
Qed.

(** ** Induction on a compilation that returns *)

Lemma setattr_inv (update : attrs Float → attrs Float) enode enode' :
  setattr update enode = Return enode' →
  ∃ a, item_attrs enode = Some a ∧ enode' = with_attrs (update a) enode.
Proof. destruct enode; simpl; intros [= <-]; by eexists. Qed.

Lemma Forall2_impl_elem_of {A B : Type} (R R' : A → B → Prop)
    (l : list A) (k : list B) :
  Forall2 R l k → (∀ x y, x ∈ l → R x y → R' x y) → Forall2 R' l k.
Proof.
  induction 1 as [|x y l k Hxy _ IH]; intros Himpl; constructor.
  - apply Himpl; [left | done].
  - apply IH. intros x' y' Hin. apply Himpl. by right.
Qed.

(** A property of a node and of the item it compiles to holds of every
    compilation that returns, when it goes through each method of the
    builder. *)
Lemma compile_Return_ind self (P : Node Decimal → Item Float → Prop) :
  (∀ value, P (Word value) (build_EWord value (default_field self))) →
  (∀ value, P (Phrase value) (build_EPhrase value (default_field self))) →
  (∀ low high include_low include_high,
     P (Range low high include_low include_high)
       (build_ERange (range_kwargs low high include_low include_high))) →
  (∀ node (cls : EOperation) items,
     type node ∈ [TAndOperation; TOrOperation; TUnknownOperation;
                  TNot; TProhibit; TPlus] →
     compile self node = Return (build cls items) →
     Forall2 (fun c item => compile self c = Return item ∧ P c item)
       (simplify_if_same (children node) node) items →
     P node (build cls items)) →
  (∀ node (expr : Node Decimal) (update : attrs Float → attrs Float)
     (a : attrs Float) enode,
     type node ∈ [TBoost; TFuzzy; TProximity] →
     children node = [expr] →
     item_attrs enode = Some a →
     P expr enode → P node (with_attrs (update a) enode)) →
  (∀ node (expr : Node Decimal) enode,
     type node ∈ [TGroup; TFieldGroup] →
     children node = [expr] →
     P expr enode → P node enode) →
  (∀ name (expr : Node Decimal) enode scoped,
     P expr enode →
     _set_search_field_in_all_children enode name = Return scoped →
     P (SearchField name expr)
       (if _is_nested (SearchField name expr)
        then build_ENested name scoped else scoped)) →
  (∀ operands,
     default_operator self ≠ SHOULD → default_operator self ≠ MUST →
     P (UnknownOperation operands) PyNone) →
  ∀ node enode, compile self node = Return enode → P node enode.
Proof.
  intros HWord HPhrase HRange HOp HAttr HGroup HField HNone.
  induction node as [node IH] using depth_ind. intros enode Hcompile.
  assert (∀ cls, _binary_operation self (compile self) cls node = Return enode →
            type node ∈ [TAndOperation; TOrOperation; TUnknownOperation;
                         TNot; TProhibit; TPlus] →
            compile self node = Return enode →
            P node enode) as Hbin.
  { intros cls (items & Hitems & [= <-])%bind_Return Hty Hnode.
    apply HOp; [done | done |].
    apply visit_each_Return in Hitems as [_ Hitems].
    apply mapM_Return in Hitems.
    eapply Forall2_impl_elem_of; [done|]. intros c item Hin Hc.
    split; [done|]. apply IH; [by apply simplify_if_same_depth | done]. }
  assert (visit_not (compile self) node = Return enode →
          type node ∈ [TAndOperation; TOrOperation; TUnknownOperation;
                       TNot; TProhibit; TPlus] →
          compile self node = Return enode →
          P node enode) as Hnot.
  { intros (items & Hitems & [= <-])%bind_Return Hty Hnode.
    apply (HOp node CMustNot); [done | done |].
    apply mapM_Return in Hitems.
    eapply Forall2_impl_elem_of; [done|]. intros c item Hin Hc.
    split; [done|]. apply IH; [by apply simplify_if_same_depth | done]. }
  assert (∀ (update : attrs Float → attrs Float) (expr : Node Decimal),
            type node ∈ [TBoost; TFuzzy; TProximity] →
            children node = [expr] →
            (let* inner := compile self expr in setattr update inner) =
              Return enode →
            P node enode) as Hattr.
  { intros update expr Hty Hchildren (inner & Hinner & Hset)%bind_Return.
    apply setattr_inv in Hset as (a & Ha & ->).
    eapply HAttr; [done | done | done |].
    apply IH; [|done]. apply depth_children. rewrite Hchildren. left. }
  pose proof Hcompile as Hcompile'. rewrite compile_eq in Hcompile'.
  destruct node; cbn [visit_node] in Hcompile';
    unfold visit_word, visit_phrase, visit_range, visit_and_operation,
      visit_or_operation, visit_prohibit, visit_plus, _must_operation,
      _should_operation, visit_boost, visit_fuzzy, visit_proximity,
      visit_group, visit_field_group in Hcompile'.
  - injection Hcompile' as <-. apply HWord.
  - injection Hcompile' as <-. apply HPhrase.
  - injection Hcompile' as <-. apply HRange.
  - eapply Hbin; [done | set_solver | done].
  - eapply Hbin; [done | set_solver | done].
  - unfold visit_unknown_operation, _should_operation, _must_operation
      in Hcompile'.
    repeat case_bool_decide.
    + eapply Hbin; [done | set_solver | done].
    + eapply Hbin; [done | set_solver | done].
    + injection Hcompile' as <-. by apply HNone.
  - apply Hnot; [done | set_solver | done].
  - apply Hnot; [done | set_solver | done].
  - eapply Hbin; [done | set_solver | done].
  - eapply Hattr; [set_solver | done | done].
  - eapply Hattr; [set_solver | done | done].
  - eapply Hattr; [set_solver | done | done].
  - eapply (HGroup _ node); [set_solver | done |].
    apply IH; [simpl; lia | done].
  - apply bind_Return in Hcompile' as (inner & Hinner & [= <-]).
    eapply (HGroup _ node); [set_solver | done |].
    apply IH; [simpl; lia | done].
  - unfold visit_search_field in Hcompile'.
    apply bind_Return in Hcompile' as (inner & Hinner & Hset).
    assert (P node inner) as Hnode by (apply IH; [simpl; lia | done]).
    destruct (_set_search_field_in_all_children inner name)
      as [scoped|] eqn:Hscoped.
    + pose proof (HField name node inner scoped Hnode Hscoped) as HP.
      destruct (_is_nested (SearchField name node)); simpl in Hset;
        by injection Hset as <-.
    + by destruct (_is_nested (SearchField name node)).
Qed.

(** ** Search fields (C4) *)

(** The loop of the source: one entry for each child, true for a search
    field and the answer of the recursion for any other child. *)
Lemma _is_nested_eq node :
  _is_nested node =
  existsb (fun child =>
             if isinstance child TSearchField then true else _is_nested child)
          (children node).
Proof. destruct node; simpl; by rewrite ?orb_false_r. Qed.

(** [_is_nested] answers whether a search field stands strictly below the
    node. *)
Lemma _is_nested_below node :
  _is_nested node = true ↔ ∃ d, below d node ∧ type d = TSearchField.
Proof.
  split.
  - induction node as [node IH] using depth_ind.
    rewrite _is_nested_eq. intros (child & Hin & Hchild)%existsb_exists.
    apply list_elem_of_In in Hin.
    unfold isinstance in Hchild. case_bool_decide as Hty.
    + exists child. split; [by constructor | done].
    + destruct (IH child (depth_children _ _ Hin) Hchild) as (d & Hd & Htyd).
      exists d. split; [by eapply below_deeper | done].
  - intros (d & Hbelow & Hty).
    induction Hbelow as [child node Hin | d child node _ IH Hin];
      rewrite _is_nested_eq; apply existsb_exists; exists child;
      (split; [by apply list_elem_of_In|]); unfold isinstance.
    + by rewrite bool_decide_eq_true_2.
    + case_bool_decide; [done | by apply IH].
Qed.

Lemma search_field_free_eq node :
  search_field_free node =
  negb (isinstance node TSearchField) &&
  forallb search_field_free (children node).
Proof. destruct node; simpl; by rewrite ?andb_true_r. Qed.

Lemma existsb_negb_forallb {A : Type} (f g : A → bool) (l : list A) :
  (∀ x, x ∈ l → f x = negb (g x)) → existsb f l = negb (forallb g l).
Proof.
  induction l as [|x l IH]; intros Hfg; simpl; [done|].
  rewrite Hfg by left. rewrite IH by (intros y Hy; apply Hfg; by right).
  by destruct (g x).
Qed.

Lemma _is_nested_children node :
  _is_nested node = negb (forallb search_field_free (children node)).
Proof.
  induction node as [node IH] using depth_ind.
  rewrite _is_nested_eq. apply existsb_negb_forallb. intros child Hin.
  rewrite (search_field_free_eq child).
  destruct (isinstance child TSearchField); [done|]. simpl.
  by apply IH, depth_children.
Qed.

(** *** Search fields in search fields *)

Lemma max_list_map_le {A : Type} (f : A → nat) (l : list A) (n : nat) :
  max_list (map f l) ≤ n ↔ ∀ x, x ∈ l → f x ≤ n.
Proof.
  induction l as [|x l IH]; simpl.
  - split; [by intros _ x Hx%elem_of_nil | lia].
  - rewrite Nat.max_lub_iff, IH. unfold id. split.
    + intros [Hx Hl] y [->|Hy]%elem_of_cons; auto.
    + intros Hall. split; [apply Hall; left|].
      intros y Hy. apply Hall. by right.
Qed.

(** The levels of a node that is not a search field are those of its
    children. *)
Lemma search_field_levels_children node :
  type node ≠ TSearchField →
  search_field_levels node =
  max_list (map search_field_levels (children node)).
Proof.
  intros Hty. destruct node; simpl; unfold id; try done; lia.
Qed.

Lemma search_field_levels_child node child :
  child ∈ children node →
  search_field_levels child ≤ search_field_levels node.
Proof.
  intros Hin. destruct (decide (type node = TSearchField)) as [Hty|Hty].
  - destruct node; try done. simpl in *.
    apply list_elem_of_singleton in Hin as ->. lia.
  - rewrite (search_field_levels_children node) by done.
    revert child Hin. by apply max_list_map_le.
Qed.

Lemma search_field_levels_simplify_if_same node (c : Node Decimal) :
  c ∈ simplify_if_same (children node) node →
  search_field_levels c ≤ search_field_levels node.
Proof.
  apply (simplify_if_same_closed
    (fun n => search_field_levels n ≤ search_field_levels node)); [|done].
  intros n child Hn Hin. pose proof (search_field_levels_child n child Hin).
  lia.
Qed.

(** The levels of an operation or of a prefix operator are those of the
    children [simplify_if_same] leaves it. *)
Lemma search_field_levels_le_simplify_if_same node (n : nat) :
  type node ≠ TSearchField →
  (∀ c, c ∈ simplify_if_same (children node) node →
        search_field_levels c ≤ n) →
  search_field_levels node ≤ n.
Proof.
  intros Hty Hall.
  assert (∀ child, (∀ c, c ∈ simplify_child node child →
                         search_field_levels c ≤ n) →
                   search_field_levels child ≤ n) as Hchild.
  { induction child as [child IH] using depth_ind.
    rewrite simplify_child_eq. case_bool_decide as Hsame;
      [|intros Hc; apply Hc; left].
    intros Hc.
    rewrite search_field_levels_children by (by rewrite Hsame).
    apply max_list_map_le. intros c' Hc'.
    apply IH; [by apply depth_children|].
    intros c Hin. apply Hc, elem_of_simplify_if_same. by exists c'. }
  rewrite search_field_levels_children by done.
  apply max_list_map_le. intros child Hin. apply Hchild.
  intros c Hc. apply Hall, elem_of_simplify_if_same. by exists child.
Qed.

Lemma search_field_free_levels node :
  search_field_free node = true ↔ search_field_levels node = 0.
Proof.
  induction node as [node IH] using depth_ind.
  rewrite search_field_free_eq, andb_true_iff, negb_true_iff.
  unfold isinstance. rewrite bool_decide_eq_false, forallb_forall.
  split.
  - intros [Hty Hall]. apply Nat.le_0_r.
    apply search_field_levels_le_simplify_if_same; [done|].
    intros c Hc. apply Nat.le_0_r, IH; [by apply simplify_if_same_depth|].
    revert Hc. apply (simplify_if_same_closed
      (fun n => search_field_free n = true)).
    + intros n child Hn Hin. rewrite search_field_free_eq in Hn.
      apply andb_true_iff in Hn as [_ Hn]. by eapply forallb_elem_of.
    + rewrite search_field_free_eq, andb_true_iff, negb_true_iff.
      unfold isinstance. rewrite bool_decide_eq_false, forallb_forall. done.
  - intros Hzero. split; [by destruct node|].
    intros child Hin%list_elem_of_In.
    apply IH; [by apply depth_children|].
    pose proof (search_field_levels_child node child Hin). lia.
Qed.

Lemma _is_nested_levels (name : string) (expr : Node Decimal) :
  _is_nested (SearchField name expr) = true ↔ 0 < search_field_levels expr.
Proof.
  rewrite _is_nested_children. simpl. rewrite andb_true_r, negb_true_iff.
  pose proof (search_field_free_levels expr) as Hfree.
  destruct Hfree as [Hfree Hzero].
  destruct (search_field_free expr).
  - split; [done|]. intros Hlt. specialize (Hfree eq_refl). lia.
  - split; [|done]. intros _.
    destruct (search_field_levels expr); [|lia]. by specialize (Hzero eq_refl).
Qed.

Lemma no_nested_with_attrs (a : attrs Float) enode :
  no_nested (with_attrs a enode) = no_nested enode.
Proof. by destruct enode. Qed.

Lemma no_nested_build (cls : EOperation) (items : list (Item Float)) :
  no_nested (build cls items) = forallb no_nested items.
Proof. by destruct cls. Qed.

Lemma search_field_levels_only_child node (expr : Node Decimal) :
  type node ≠ TSearchField → children node = [expr] →
  search_field_levels node = search_field_levels expr.
Proof.
  intros Hty Hchildren. rewrite search_field_levels_children by done.
  rewrite Hchildren. simpl. unfold id. lia.
Qed.

Lemma type_not_SearchField node (types : list NodeType) :
  type node ∈ types →
  forallb (fun t => bool_decide (t ≠ TSearchField)) types = true →
  type node ≠ TSearchField.
Proof.
  intros Hin Hall. apply (forallb_elem_of _ _ _ Hall) in Hin.
  by apply bool_decide_eq_true in Hin.
Qed.

(** With search fields one in another once at most, the item holds no
    [ENested]. *)
Lemma compile_no_nested self node enode :
  compile self node = Return enode →
  search_field_levels node ≤ 1 →
  no_nested enode = true.
Proof.
  revert node enode.
  apply (compile_Return_ind self (fun node enode =>
    search_field_levels node ≤ 1 → no_nested enode = true)); try done.
  - intros node cls items Hty _ Hitems Hlevels.
    rewrite no_nested_build. apply forallb_forall. intros item Hin.
    apply list_elem_of_In, list_elem_of_lookup in Hin as [i Hi].
    destruct (Forall2_lookup_r _ _ _ _ _ Hitems Hi) as (c & Hc & _ & HP).
    apply HP. apply list_elem_of_lookup_2 in Hc.
    pose proof (search_field_levels_simplify_if_same node c Hc). lia.
  - intros node expr update a enode Hty Hchildren _ HP Hlevels.
    rewrite no_nested_with_attrs. apply HP.
    rewrite <- (search_field_levels_only_child node expr); [done| |done].
    by eapply type_not_SearchField.
  - intros node expr enode Hty Hchildren HP Hlevels. apply HP.
    rewrite <- (search_field_levels_only_child node expr); [done| |done].
    by eapply type_not_SearchField.
  - intros name expr enode scoped _ Hscoped Hlevels. simpl in Hlevels.
    destruct (_is_nested (SearchField name expr)) eqn:Hnested.
    + apply _is_nested_levels in Hnested. lia.
    + by apply _set_search_field_in_all_children_plain in Hscoped as [_ ?].
Qed.

(** With an operator the builder knows and search fields one in another
    twice or more, the item holds an [ENested]. *)
Lemma compile_nested self node enode :
  known_operator self →
  compile self node = Return enode →
  2 ≤ search_field_levels node →
  no_nested enode = false.
Proof.
  intros Hop. revert node enode.
  apply (compile_Return_ind self (fun node enode =>
    2 ≤ search_field_levels node → no_nested enode = false));
    try (intros; simpl in *; lia).
  - intros node cls items Hty _ Hitems Hlevels.
    rewrite no_nested_build.
    destruct (forallb no_nested items) eqn:Hall; [|done].
    assert (search_field_levels node ≤ 1); [|lia].
    apply search_field_levels_le_simplify_if_same;
      [by eapply type_not_SearchField|].
    intros c Hc. apply list_elem_of_lookup in Hc as [i Hi].
    destruct (Forall2_lookup_l _ _ _ _ _ Hitems Hi) as (item & Hitem & _ & HP).
    apply list_elem_of_lookup_2 in Hitem.
    apply (forallb_elem_of _ _ _ Hall) in Hitem.
    destruct (decide (search_field_levels c ≤ 1)) as [|Hgt]; [done|].
    rewrite HP in Hitem by lia. done.
  - intros node expr update a enode Hty Hchildren _ HP Hlevels.
    rewrite no_nested_with_attrs. apply HP.
    rewrite <- (search_field_levels_only_child node expr); [done| |done].
    by eapply type_not_SearchField.
  - intros node expr enode Hty Hchildren HP Hlevels. apply HP.
    rewrite <- (search_field_levels_only_child node expr); [done| |done].
    by eapply type_not_SearchField.
  - intros name expr enode scoped _ Hscoped Hlevels. simpl in Hlevels.
    destruct (_is_nested (SearchField name expr)) eqn:Hnested; [done|].
    assert (0 < search_field_levels expr) as Hpos by lia.
    apply (_is_nested_levels name) in Hpos. congruence.
  - intros operands Hshould Hmust. by destruct Hop.
Qed.

(** C4.  The field name is not set through an [ENested].  With an operator
    the builder knows, a search field over a tree that compiles and in
    which search fields stand one in another twice or more does not
    compile: the item of the tree holds an [ENested], and the loop of
    [_set_search_field_in_all_children] over the one item it wraps raises
    [TypeError].  So does the tree of [a:(b:(c:x))]. *)
Theorem search_field_over_nested_raises_TypeError self (name : string)
    (expr : Node Decimal) enode :
  known_operator self →
  compile self expr = Return enode →
  2 ≤ search_field_levels expr →
  compile self (SearchField name expr) = Raise TypeError.
Proof.
  intros Hop Hexpr Hlevels.
  pose proof (compile_no_none self Hop expr enode Hexpr) as Hnone.
  pose proof (compile_nested self expr enode Hop Hexpr Hlevels) as Hnested.
  rewrite compile_eq. cbn [visit_node]. unfold visit_search_field.
  rewrite Hexpr. cbn [bind].
  rewrite (_set_search_field_in_all_children_TypeError name enode Hnone Hnested).
  by destruct (_is_nested (SearchField name expr)).
Qed.

(** X18.  With an operator the builder knows, and a child that compiles
    to an item and in which no search field stands in another one: the
    search field compiles to that item with the name of the field set at
    the front of the fields of each of its leaves and nothing else changed,
    wrapped in an [ENested] of path the name of the field when a search
    field stands somewhere strictly below the node, and not wrapped
    otherwise.  So a field over the group of a field over a word compiles
    to an [ENested] of the outer name over the word item, whose fields are
    the two names and whose field is their dotted path. *)
Theorem search_field_sets_field_in_leaves self (name : string)
    (expr : Node Decimal) enode :
  known_operator self →
  compile self expr = Return enode →
  search_field_levels expr ≤ 1 →
  ∃ scoped,
    leaf_fields scoped = map (cons name) (leaf_fields enode) ∧
    without_fields scoped = without_fields enode ∧
    ((∃ d, below d (SearchField name expr) ∧ type d = TSearchField) →
     compile self (SearchField name expr) =
       Return (ENested name scoped no_attrs)) ∧
    (¬ (∃ d, below d (SearchField name expr) ∧ type d = TSearchField) →
     compile self (SearchField name expr) = Return scoped) ∧
    compile self (SearchField "illustrators"
                    (FieldGroup (SearchField "nationality" (Word "UK")))) =
      Return (ENested "illustrators"
                (EWord "UK" (default_field self)
                   ["illustrators"; "nationality"] no_attrs)
                no_attrs) ∧
    field (default_field self) ["illustrators"; "nationality"] =
      "illustrators.nationality".
Proof.
  intros Hop Hexpr Hlevels.
  pose proof (compile_no_none self Hop expr enode Hexpr) as Hnone.
  pose proof (compile_no_nested self expr enode Hexpr Hlevels) as Hplain.
  destruct (_set_search_field_in_all_children_spec name enode Hnone Hplain)
    as (scoped & Hscoped & _ & Hleaves & Hrest).
  exists scoped. split; [done|]. split; [done|].
  assert (compile self (SearchField name expr) =
          if _is_nested (SearchField name expr)
          then Return (ENested name scoped no_attrs) else Return scoped) as ->.
  { rewrite compile_eq. cbn [visit_node]. unfold visit_search_field.
    rewrite Hexpr. cbn [bind].
    destruct (_is_nested (SearchField name expr)); by rewrite Hscoped. }
  split; [|split; [|split]].
  - intros Hbelow. apply _is_nested_below in Hbelow. by rewrite Hbelow.
  - intros Hbelow. destruct (_is_nested (SearchField name expr)) eqn:Hnested;
      [|done].
    by apply _is_nested_below in Hnested.
  - reflexivity.
  - reflexivity.
Qed.

Lemma explicit_boolean_children node child :
  explicit_boolean node = true → child ∈ children node →
  explicit_boolean child = true.
Proof.
  destruct node; simpl; try done; intros Hnode Hin;
    try (by eapply forallb_elem_of);
    repeat (apply elem_of_cons in Hin as [->|Hin]; [done|]);
    by apply elem_of_nil in Hin.
Qed.

Lemma binary_operations_children node child :
  binary_operations node = true → child ∈ children node →
  binary_operations child = true.
Proof.
  destruct node; simpl; try done; intros Hnode Hin;
    try (apply andb_true_iff in Hnode as [_ Hnode]; by eapply forallb_elem_of);
    repeat (apply elem_of_cons in Hin as [->|Hin]; [done|]);
    by apply elem_of_nil in Hin.
Qed.

(** ** The flattening invariant (C5) *)

(** In a tree of explicit operations, an [EMust] comes from an
    [AndOperation] and an [EShould] from an [OrOperation]. *)
Lemma explicit_boolean_item_class self node enode :
  explicit_boolean node = true →
  compile self node = Return enode →
  (is_must enode = true → type node = TAndOperation) ∧
  (is_should enode = true → type node = TOrOperation).
Proof.
  intros Hnode. rewrite compile_eq.
  destruct node; simpl in *; try done;
    unfold visit_word, visit_phrase, visit_range, visit_and_operation,
      visit_or_operation, visit_prohibit, visit_not, _must_operation,
      _should_operation, _binary_operation;
    try (by intros [= <-]);
    by intros (items & _ & [= <-])%bind_Return.
Qed.

(** X19.  In the item a tree compiles to, when the tree is made of
    words, phrases, ranges, [AndOperation], [OrOperation], [Not] and
    [Prohibit] nodes only, no [EMust] is an item of an [EMust] and no
    [EShould] is an item of an [EShould]. *)
Theorem explicit_operations_are_flattened self node enode :
  explicit_boolean node = true →
  compile self node = Return enode →
  flattened enode = true.
Proof.
  revert enode. induction node as [node IH] using depth_ind.
  intros enode Hnode Hcompile.
  assert (∀ c enode', c ∈ simplify_if_same (children node) node →
            compile self c = Return enode' →
            flattened enode' = true ∧
            (is_must enode' = true → type c = TAndOperation) ∧
            (is_should enode' = true → type c = TOrOperation)) as Hchildren.
  { intros c enode' Hin Hc.
    assert (explicit_boolean c = true) as Hexplicit.
    { revert Hin. apply (simplify_if_same_closed
        (fun n => explicit_boolean n = true)); [|done].
      intros n child. apply explicit_boolean_children. }
    split; [|by eapply explicit_boolean_item_class].
    eapply IH; [by apply simplify_if_same_depth | done | done]. }
  rewrite compile_eq in Hcompile.
  destruct node; simpl in Hnode; try done; simpl in Hcompile;
    unfold visit_word, visit_phrase, visit_range, visit_and_operation,
      visit_or_operation, visit_prohibit, visit_not, _must_operation,
      _should_operation, _binary_operation in Hcompile;
    try (by injection Hcompile as <-);
    apply bind_Return in Hcompile as (items & Hitems & [= <-]);
    try apply visit_each_Return in Hitems as [_ Hitems];
    simpl; (eapply mapM_compile_forallb; [|done]);
    intros c enode' Hin Hc;
    destruct (Hchildren c enode' Hin Hc) as (Hflat & Hmust & Hshould);
    rewrite ?Hflat; try done; rewrite andb_true_r; apply negb_true_iff.
  - destruct (is_must enode') eqn:His; [|done].
    by apply simplify_if_same_type in Hin; rewrite Hmust in Hin.
  - destruct (is_should enode') eqn:His; [|done].
    by apply simplify_if_same_type in Hin; rewrite Hshould in Hin.
Qed.

(** *** The class of the item of a node *)








(** *** The flattening invariant, read off the tree *)








(** ** Ambiguous mixes (C1, C10) *)

Lemma mapM_Raise {A B : Type} (f : A → outcome B) (l : list A) (e : exn) :
  mapM f l = Raise e → ∃ x, x ∈ l ∧ f x = Raise e.
Proof.
  induction l as [|x l IH]; simpl; [done|].
  intros [Hx | (y & Hy & [Hl | (ys & _ & [=])]%bind_Raise)]%bind_Raise.
  - exists x. split; [left | done].
  - destruct (IH Hl) as (x' & Hin & Hx'). exists x'. split; [by right | done].
Qed.

Lemma mapM_app_Return {A B : Type} (f : A → outcome B) (l1 l2 : list A)
    (ys : list B) :
  mapM f (l1 ++ l2) = Return ys ↔
  ∃ ys1 ys2, mapM f l1 = Return ys1 ∧ mapM f l2 = Return ys2 ∧ ys = ys1 ++ ys2.
Proof.
  rewrite mapM_app. split.
  - intros (ys1 & H1 & (ys2 & H2 & [= <-])%bind_Return)%bind_Return. eauto.
  - intros (ys1 & ys2 & -> & -> & ->). done.
Qed.

(** When the comprehension raises, either the generator raised at a child
    of the opposite kind, with the extract around its operator or with what
    the extraction raised, or the visit of a child raised. *)
Lemma visit_each_Raise self (v : Node Decimal → outcome (Item Float))
    parent (l : list (Node Decimal)) (e : exn) :
  visit_each v (_yield_nested_children self parent l) = Raise e →
  (∃ c, c ∈ l ∧ opposite self parent c = true ∧
        match _get_operator_extract c 8 with
        | Return extract => e = OrAndAndOnSameLevel extract
        | Raise e' => e = e'
        end) ∨
  (∃ c, c ∈ l ∧ v c = Raise e).
Proof.
  induction l as [|c l IH]; simpl; [done|].
  destruct (opposite self parent c) eqn:Hopp.
  - intros He. left. exists c. split; [left|]. split; [done|].
    destruct (_get_operator_extract c 8); simpl in He; congruence.
  - simpl.
    intros [Hc | (y & Hy & [Hl | (ys & _ & [=])]%bind_Raise)]%bind_Raise.
    + right. exists c. split; [left | done].
    + destruct (IH Hl) as [(c' & Hin & Hc')|(c' & Hin & Hc')]; [left|right];
        exists c'; (split; [by right | done]).
Qed.

(** The extract exists for an operation of two operands at least. *)
Lemma _get_operator_extract_Return self parent child :
  opposite self parent child = true →
  binary_operations child = true →
  ∃ extract, _get_operator_extract child 8 = Return extract.
Proof.
  intros Hopp Hbinary. unfold _get_operator_extract.
  assert (isinstance child TAndOperation || isinstance child TOrOperation ||
          isinstance child TUnknownOperation = true) as Hty.
  { unfold opposite, _is_must, _is_should in Hopp.
    destruct (isinstance child TAndOperation),
      (isinstance child TOrOperation),
      (isinstance child TUnknownOperation); try done.
    simpl in Hopp. by rewrite !andb_false_r in Hopp. }
  assert (2 ≤ length (children child)) as Hlen.
  { destruct child; try (by compute in Hty); simpl in *;
      apply andb_true_iff in Hbinary as [Hlen _];
      by apply bool_decide_eq_true in Hlen. }
  destruct (children child) as [|c1 [|c2 l]]; simpl in *; try lia.
  by eexists.
Qed.

(** With a known operator, a tree whose operations have two operands at
    least, and in which search fields stand one in another twice at most,
    raises nothing but [OrAndAndOnSameLevel]. *)
Lemma compile_Raise self :
  known_operator self →
  ∀ node (e : exn),
    binary_operations node = true →
    search_field_levels node ≤ 2 →
    compile self node = Raise e → ∃ extract, e = OrAndAndOnSameLevel extract.
Proof.
  intros Hop. induction node as [node IH] using depth_ind.
  intros e Hbinary Hlevels.
  assert (∀ c, c ∈ simplify_if_same (children node) node →
               binary_operations c = true ∧ search_field_levels c ≤ 2)
    as Hchildren.
  { intros c Hc. split.
    - revert Hc. apply (simplify_if_same_closed
        (fun n => binary_operations n = true)); [|done].
      intros n child. apply binary_operations_children.
    - pose proof (search_field_levels_simplify_if_same node c Hc). lia. }
  assert (∀ cls, _binary_operation self (compile self) cls node = Raise e →
                 ∃ extract, e = OrAndAndOnSameLevel extract) as Hbin.
  { intros cls [He | (items & _ & [=])]%bind_Raise.
    apply visit_each_Raise in He as [(c & Hin & Hopp & He)|(c & Hin & He)].
    - destruct (_get_operator_extract_Return self node c Hopp
                  (proj1 (Hchildren c Hin))) as [extract Hextract].
      rewrite Hextract in He. by exists extract.
    - destruct (Hchildren c Hin) as [Hc1 Hc2].
      eapply (IH c); [by apply simplify_if_same_depth | done | done | done]. }
  assert (visit_not (compile self) node = Raise e →
          ∃ extract, e = OrAndAndOnSameLevel extract) as Hnot.
  { intros [He | (items & _ & [=])]%bind_Raise.
    apply mapM_Raise in He as (c & Hin & He).
    destruct (Hchildren c Hin) as [Hc1 Hc2].
    eapply (IH c); [by apply simplify_if_same_depth | done | done | done]. }
  assert (∀ (update : attrs Float → attrs Float) (expr : Node Decimal),
            depth expr < depth node → binary_operations expr = true →
            search_field_levels expr ≤ 2 →
            (let* enode := compile self expr in setattr update enode) = Raise e →
            ∃ extract, e = OrAndAndOnSameLevel extract) as Hattr.
  { intros update expr Hlt Hexpr Hle [He | (enode & Henode & He)]%bind_Raise.
    - by apply (IH expr).
    - apply (compile_no_none self Hop) in Henode.
      destruct (setattr_Return update enode Henode) as [enode' Hset].
      congruence. }
  rewrite compile_eq.
  destruct node; simpl in *; try done;
    unfold visit_and_operation, visit_or_operation, visit_prohibit, visit_plus,
      _must_operation, _should_operation, visit_boost, visit_fuzzy,
      visit_proximity, visit_group, visit_field_group;
    try (by apply Hbin); try (by apply Hnot);
    try (by apply Hattr; [lia | done | done]).
  - unfold visit_unknown_operation, _should_operation, _must_operation.
    destruct Hop as [Hop|Hop]; rewrite Hop;
      repeat case_bool_decide; try done; by apply Hbin.
  - apply IH; [lia | done | done].
  - intros [He | (enode & _ & [=])]%bind_Raise. by apply (IH node); [lia| | |].
  - unfold visit_search_field.
    intros [He | (enode & Henode & He)]%bind_Raise;
      [by apply (IH node); [lia| |lia|]|].
    pose proof (compile_no_none self Hop _ _ Henode) as Hnone.
    pose proof (compile_no_nested self _ _ Henode ltac:(lia)) as Hplain.
    destruct (_set_search_field_in_all_children_spec name enode Hnone Hplain)
      as (scoped & Hscoped & _).
    rewrite Hscoped in He. by destruct (_is_nested (SearchField name node)).
Qed.

(** A child that is not an operation is of no kind, and opposite to
    nothing. *)
Lemma opposite_not_operation self parent child :
  isinstance child TAndOperation = false →
  isinstance child TOrOperation = false →
  isinstance child TUnknownOperation = false →
  opposite self parent child = false.
Proof.
  unfold opposite, _is_must, _is_should. intros -> -> ->. simpl.
  by rewrite !andb_false_r.
Qed.

(** A child of another class than the operation, that is not of the
    opposite kind and compiles to an item, can be put anywhere among the
    operands of an operation that compiles: the operation still compiles,
    with the item of the child at its place among the items. *)
Lemma compile_operation_insert self (cls : OperationClass)
    (pre post : list (Node Decimal)) child enode :
  type child ≠ operation_type cls →
  opposite self (operation cls []) child = false →
  compile self child = Return enode →
  succeeds (compile self (operation cls (pre ++ post))) →
  ∃ result,
    compile self (operation cls (pre ++ child :: post)) = Return result ∧
    ∀ ecls, built_by self cls = Some ecls →
      ∃ items1 items2,
        compile self (operation cls (pre ++ post)) =
          Return (build ecls (items1 ++ items2)) ∧
        result = build ecls (items1 ++ enode :: items2).
Proof.
  intros Hty Hopp Hchild [result0 Hrest]. revert Hrest.
  rewrite !compile_operation.
  destruct (built_by self cls) as [ecls|]; [|by exists PyNone].
  unfold _binary_operation. rewrite !children_operation.
  set (p0 := operation cls (pre ++ post)).
  set (p1 := operation cls (pre ++ child :: post)).
  assert (type p0 = type p1) as Hp
    by (unfold p0, p1; by rewrite !type_operation).
  intros (items & Hitems & [= <-])%bind_Return.
  pose proof Hitems as Hitems0.
  apply visit_each_Return in Hitems as [Hall Hitems].
  rewrite simplify_if_same_app in Hall, Hitems.
  apply Forall_app in Hall as [Hall1 Hall2].
  apply mapM_app_Return in Hitems as (items1 & items2 & Hitems1 & Hitems2 & ->).
  assert (visit_each (compile self)
            (_yield_nested_children self p1
               (simplify_if_same (pre ++ child :: post) p1)) =
          Return (items1 ++ enode :: items2)) as ->.
  { apply visit_each_Return.
    rewrite simplify_if_same_app, simplify_if_same_cons.
    rewrite bool_decide_eq_false_2
      by (unfold p1; by rewrite type_operation).
    rewrite <- !(simplify_if_same_current p0 p1) by done.
    split.
    - apply Forall_app. split; [|constructor].
      + eapply Forall_impl; [done|]. intros c <-. by apply opposite_type.
      + rewrite <- Hopp. apply opposite_type. unfold p1.
        by rewrite !type_operation.
      + eapply Forall_impl; [done|]. intros c <-. by apply opposite_type.
    - apply mapM_app_Return. exists items1, (enode :: items2).
      split; [done|]. split; [|done]. simpl.
      by rewrite Hchild, Hitems2. }
  eexists. split; [done|]. intros ecls' [= <-]. exists items1, items2.
  by rewrite Hitems0.
Qed.


(** C10.  A negation between a conjunction and a disjunction keeps them
    apart: a [Not] or a [Prohibit] over an [OrOperation] is not of the kind
    opposite to an [AndOperation], and put anywhere among the operands of an
    [AndOperation] that compiles it leaves it compiling, when the
    [OrOperation] compiles, with the [EMustNot] over the item of the
    [OrOperation] at its place among the items. *)
Theorem negation_keeps_and_from_or self
    (negation : Node Decimal → Node Decimal)
    (pre disjuncts post : list (Node Decimal)) enode :
  negation = Not ∨ negation = Prohibit →
  compile self (OrOperation disjuncts) = Return enode →
  succeeds (compile self (AndOperation (pre ++ post))) →
  opposite self
    (AndOperation (pre ++ negation (OrOperation disjuncts) :: post))
    (negation (OrOperation disjuncts)) = false ∧
  ∃ items1 items2,
    compile self (AndOperation (pre ++ post)) =
      Return (EMust (items1 ++ items2) no_attrs) ∧
    compile self
      (AndOperation (pre ++ negation (OrOperation disjuncts) :: post)) =
      Return (EMust (items1 ++ EMustNot [enode] no_attrs :: items2) no_attrs).
Proof.
  intros Hnegation Hor Hrest.
  assert (compile self (negation (OrOperation disjuncts)) =
          Return (EMustNot [enode] no_attrs)) as Hnot.
  { destruct Hnegation as [-> | ->];
      rewrite ?compile_not, ?compile_prohibit; unfold visit_not;
      simpl children; rewrite simplify_if_same_cons;
      rewrite bool_decide_eq_false_2 by done; simpl; by rewrite Hor. }
  assert (∀ parent, opposite self parent (negation (OrOperation disjuncts)) =
                    false) as Hopp.
  { intros parent.
    destruct Hnegation as [-> | ->]; by apply opposite_not_operation. }
  split; [done|].
  destruct (compile_operation_insert self CAnd pre post
              (negation (OrOperation disjuncts)) (EMustNot [enode] no_attrs))
    as (result & Hresult & Hitems);
    [by destruct Hnegation as [-> | ->] | done | done | done |].
  destruct (Hitems CMust eq_refl) as (items1 & items2 & H0 & ->).
  by exists items1, items2.
Qed.



(** * Further properties of the builder *)

(** ** The nodes below a node *)

Lemma below_trans (d child node : Node Decimal) :
  below d child → below child node → below d node.
Proof.
  intros Hd Hchild. induction Hchild as [child node Hin | c child node _ IH Hin].
  - by eapply below_deeper.
  - eapply below_deeper; [by apply IH | done].
Qed.

Lemma at_or_below_trans (d child node : Node Decimal) :
  at_or_below d child → below child node → below d node.
Proof. intros [-> | Hd] Hchild; [done | by eapply below_trans]. Qed.

(** What [simplify_if_same] yields on the children of a node stands
    strictly below the node. *)
Lemma simplify_if_same_below node (c : Node Decimal) :
  c ∈ simplify_if_same (children node) node → below c node.
Proof.
  intros Hin. pose proof (simplify_if_same_depth node c Hin) as Hlt.
  assert (at_or_below c node) as [-> | Hbelow]; [|lia|done].
  revert Hin. apply (simplify_if_same_closed (fun n => at_or_below n node)).
  - intros n child [-> | Hn] Hchild; right.
    + by constructor.
    + eapply below_trans; [by constructor | done].
  - by left.
Qed.

Lemma kind_free_children self (kind : EOperation) node child :
  kind_free self kind node = true → child ∈ children node →
  kind_free self kind child = true.
Proof.
  destruct node; simpl; intros Hnode Hin;
    try apply andb_true_iff in Hnode as [_ Hnode];
    try (by eapply forallb_elem_of);
    repeat (apply elem_of_cons in Hin as [->|Hin]; [done|]);
    by apply elem_of_nil in Hin.
Qed.

Lemma kind_free_below self (kind : EOperation) (d node : Node Decimal) :
  kind_free self kind node = true → at_or_below d node →
  boolean_kind self d ≠ Some kind.
Proof.
  intros Hnode Hd.
  assert (kind_free self kind d = true) as Hfree.
  { destruct Hd as [-> | Hd]; [done|].
    induction Hd as [child node Hin | d child node _ IH Hin].
    - by eapply kind_free_children.
    - apply IH. by eapply kind_free_children. }
  destruct d; simpl in *; try done;
    apply andb_true_iff in Hfree as [Hkind _];
    by apply negb_true_iff, bool_decide_eq_false in Hkind.
Qed.


(** ** What makes the compilation raise *)

(** With a known operator and search fields one in another twice at most,
    whatever the compilation raises is raised by [_yield_nested_children]
    at some node of the tree, on a child of the opposite kind among those
    [simplify_if_same] yields there. *)
Lemma compile_Raise_cause self :
  known_operator self →
  ∀ node (e : exn),
    search_field_levels node ≤ 2 →
    compile self node = Raise e →
    ∃ parent child,
      at_or_below parent node ∧
      child ∈ simplify_if_same (children parent) parent ∧
      opposite self parent child = true ∧
      match _get_operator_extract child 8 with
      | Return extract => e = OrAndAndOnSameLevel extract
      | Raise e' => e = e'
      end.
Proof.
  intros Hop. induction node as [node IH] using depth_ind.
  intros e Hlevels.
  assert (∀ c, c ∈ simplify_if_same (children node) node →
            compile self c = Raise e →
            ∃ parent child,
              at_or_below parent node ∧
              child ∈ simplify_if_same (children parent) parent ∧
              opposite self parent child = true ∧
              match _get_operator_extract child 8 with
              | Return extract => e = OrAndAndOnSameLevel extract
              | Raise e' => e = e'
              end) as Hlower.
  { intros c Hin He.
    pose proof (search_field_levels_simplify_if_same node c Hin) as Hc.
    destruct (IH c (simplify_if_same_depth _ _ Hin) e ltac:(lia) He)
      as (parent & child & Hparent & Hchild & Hopp & Hextract).
    exists parent, child. split; [|done]. right.
    eapply at_or_below_trans; [done | by apply simplify_if_same_below]. }
  assert (∀ expr : Node Decimal, expr ∈ children node →
            compile self expr = Raise e →
            ∃ parent child,
              at_or_below parent node ∧
              child ∈ simplify_if_same (children parent) parent ∧
              opposite self parent child = true ∧
              match _get_operator_extract child 8 with
              | Return extract => e = OrAndAndOnSameLevel extract
              | Raise e' => e = e'
              end) as Hexpr.
  { intros expr Hin He.
    pose proof (search_field_levels_child node expr Hin) as Hc.
    destruct (IH expr (depth_children _ _ Hin) e ltac:(lia) He)
      as (parent & child & Hparent & Hchild & Hopp & Hextract).
    exists parent, child. split; [|done]. right.
    eapply at_or_below_trans; [done | by constructor]. }
  assert (∀ cls, _binary_operation self (compile self) cls node = Raise e →
            ∃ parent child,
              at_or_below parent node ∧
              child ∈ simplify_if_same (children parent) parent ∧
              opposite self parent child = true ∧
              match _get_operator_extract child 8 with
              | Return extract => e = OrAndAndOnSameLevel extract
              | Raise e' => e = e'
              end) as Hbin.
  { intros cls [He | (items & _ & [=])]%bind_Raise.
    apply visit_each_Raise in He as [(c & Hin & Hopp & He)|(c & Hin & He)].
    - exists node, c. split; [by left | done].
    - by apply (Hlower c). }
  assert (∀ (update : attrs Float → attrs Float) (expr : Node Decimal),
            expr ∈ children node →
            (let* enode := compile self expr in setattr update enode) = Raise e →
            ∃ parent child,
              at_or_below parent node ∧
              child ∈ simplify_if_same (children parent) parent ∧
              opposite self parent child = true ∧
              match _get_operator_extract child 8 with
              | Return extract => e = OrAndAndOnSameLevel extract
              | Raise e' => e = e'
              end) as Hattr.
  { intros update expr Hin [He | (enode & Henode & He)]%bind_Raise.
    - by apply (Hexpr expr).
    - apply (compile_no_none self Hop) in Henode.
      destruct (setattr_Return update enode Henode) as [enode' Hset].
      congruence. }
  rewrite compile_eq.
  destruct node; simpl in Hexpr, Hattr; cbn [visit_node];
    unfold visit_word, visit_phrase, visit_range, visit_and_operation,
      visit_or_operation, visit_prohibit, visit_plus, _must_operation,
      _should_operation, visit_boost, visit_fuzzy, visit_proximity,
      visit_group, visit_field_group;
    try done; try (by apply Hbin);
    try (by apply Hattr; left).
  - unfold visit_unknown_operation, _should_operation, _must_operation.
    destruct Hop as [Hop|Hop]; rewrite Hop;
      repeat case_bool_decide; try done; by apply Hbin.
  - intros [He | (items & _ & [=])]%bind_Raise.
    apply mapM_Raise in He as (c & Hin & He). by apply (Hlower c).
  - intros [He | (items & _ & [=])]%bind_Raise.
    apply mapM_Raise in He as (c & Hin & He). by apply (Hlower c).
  - apply Hexpr. left.
  - intros [He | (enode & _ & [=])]%bind_Raise.
    apply (Hexpr node); [left | done].
  - unfold visit_search_field.
    intros [He | (enode & Henode & He)]%bind_Raise;
      [apply (Hexpr node); [left | done]|].
    simpl in Hlevels.
    pose proof (compile_no_none self Hop _ _ Henode) as Hnone.
    pose proof (compile_no_nested self _ _ Henode ltac:(lia)) as Hplain.
    destruct (_set_search_field_in_all_children_spec name enode Hnone Hplain)
      as (scoped & Hscoped & _).
    rewrite Hscoped in He. by destruct (_is_nested (SearchField name node)).
Qed.

(** X1.  With an operator the builder knows, on a tree whose operations
    have two operands at least and in which search fields stand one in
    another twice at most, the compilation either returns an item in which
    no [None] stands, or raises [OrAndAndOnSameLevel]: it raises no other
    error. *)
Theorem compile_returns_an_item_or_an_ambiguity self node :
  known_operator self →
  binary_operations node = true →
  search_field_levels node ≤ 2 →
  (∃ enode, compile self node = Return enode ∧ no_none enode = true) ∨
  (∃ extract, compile self node = Raise (OrAndAndOnSameLevel extract)).
Proof.
  intros Hop Hbinary Hlevels.
  destruct (compile self node) as [enode|e] eqn:Hcompile.
  - left. exists enode. split; [done|]. by eapply compile_no_none.
  - right. destruct (compile_Raise self Hop node e Hbinary Hlevels Hcompile)
      as [extract ->]. by exists extract.
Qed.


(** X3.  A tree with no operation of one of the two boolean kinds, and in
    which search fields stand one in another twice at most, always
    compiles, with an operator the builder knows: no conjunction in it, or
    no disjunction in it, and nothing is raised. *)
Theorem one_kind_always_compiles self (kind : EOperation) node :
  known_operator self →
  kind = CMust ∨ kind = CShould →
  kind_free self kind node = true →
  search_field_levels node ≤ 2 →
  succeeds (compile self node).
Proof.
  intros Hop Hkind Hfree Hlevels.
  destruct (compile self node) as [enode|e] eqn:Hcompile; [by exists enode|].
  destruct (compile_Raise_cause self Hop node e Hlevels Hcompile)
    as (parent & child & Hparent & Hchild & Hopp & _).
  apply opposite_kinds in Hopp as (kp & kc & Hkp & Hkc & Hne).
  assert (at_or_below child node) as Hbelow.
  { right. eapply at_or_below_trans; [by left|].
    destruct Hparent as [-> | Hparent];
      [by apply simplify_if_same_below|].
    eapply below_trans; [by apply simplify_if_same_below | done]. }
  pose proof (kind_free_below self kind parent node Hfree Hparent) as Hp.
  pose proof (kind_free_below self kind child node Hfree Hbelow) as Hc.
  destruct (boolean_kind_cases self parent kp Hkp) as [-> | ->],
    (boolean_kind_cases self child kc Hkc) as [-> | ->],
    Hkind as [-> | ->]; congruence.
Qed.

(** ** The extract around an operator *)

Lemma list_ascii_of_string_app (s1 s2 : string) :
  String.list_ascii_of_string (s1 +:+ s2) =
  String.list_ascii_of_string s1 ++ String.list_ascii_of_string s2.
Proof. induction s1 as [|a s1 IH]; simpl; [done | by rewrite IH]. Qed.

Lemma length_list_ascii_of_string (s : string) :
  length (String.list_ascii_of_string s) = String.length s.
Proof. induction s as [|a s IH]; simpl; [done | by rewrite IH]. Qed.

Lemma list_ascii_of_string_substring (n m : nat) (s : string) :
  String.list_ascii_of_string (String.substring n m s) =
  take m (drop n (String.list_ascii_of_string s)).
Proof.
  revert n m. induction s as [|a s IH]; intros [|n] [|m]; simpl;
    rewrite ?IH; done.
Qed.

Lemma list_ascii_of_string_inj (s1 s2 : string) :
  String.list_ascii_of_string s1 = String.list_ascii_of_string s2 → s1 = s2.
Proof.
  intros Heq. rewrite <- (String.string_of_list_ascii_of_string s1).
  rewrite <- (String.string_of_list_ascii_of_string s2). by rewrite Heq.
Qed.

(** The window of the extract, on lists of characters. *)
Lemma take_drop_around {A : Type} (l1 lm l2 : list A) (delta : nat) :
  take (Nat.min (length l1 + length lm + delta)
                (length l1 + length lm + length l2) - (length l1 - delta))
       (drop (length l1 - delta) (l1 ++ lm ++ l2)) =
  take delta (drop (length l1 - delta) l1) ++ lm ++ take delta l2.
Proof.
  rewrite drop_app_le by lia.
  assert (length (drop (length l1 - delta) l1) =
          Nat.min (length l1) delta) as Hlen by (rewrite length_drop; lia).
  rewrite (take_ge (drop _ l1)) by lia.
  replace (Nat.min (length l1 + length lm + delta)
                   (length l1 + length lm + length l2) - (length l1 - delta))
    with (length (drop (length l1 - delta) l1) +
          (length lm + Nat.min delta (length l2))) by lia.
  rewrite take_app_add, take_app_add. do 2 f_equal.
  destruct (decide (delta ≤ length l2)).
  - by rewrite Nat.min_l.
  - rewrite Nat.min_r by lia. by rewrite !take_ge by lia.
Qed.

(** X4.  When the first operand of an operation is an operation of the
    opposite kind with fewer than two operands, what the compilation raises
    is the [IndexError] of the extract, and not [OrAndAndOnSameLevel]. *)
Theorem short_opposite_operand_raises_IndexError self (cls : OperationClass)
    child (post : list (Node Decimal)) :
  opposite self (operation cls (child :: post)) child = true →
  length (children child) < 2 →
  compile self (operation cls (child :: post)) = Raise IndexError.
Proof.
  intros Hopp Hshort. rewrite compile_operation.
  destruct (built_by self cls) as [ecls|] eqn:Hcls.
  - unfold _binary_operation. rewrite children_operation.
    rewrite simplify_if_same_cons.
    rewrite bool_decide_eq_false_2 by (by eapply opposite_other_type).
    simpl. rewrite Hopp. unfold _get_operator_extract.
    by destruct (children child) as [|c1 [|c2 l]]; simpl in *; try lia.
  - apply opposite_kinds in Hopp as (kp & kc & Hkp & _).
    rewrite boolean_kind_operation in Hkp. congruence.
Qed.

(** X5.  When the text of an operation is the text of its first child,
    the text of the operator and the text of its second child, and the
    text of the second child occurs nowhere before, the extract is the last
    [delta] characters of the first child (all of it when it is shorter),
    the operator, and the first [delta] characters of the second child. *)
Theorem extract_is_around_the_operator node child_1 child_2
    (rest : list (Node Decimal)) (middle : string) (delta : nat) :
  children node = child_1 :: child_2 :: rest →
  str node = str child_1 +:+ middle +:+ str child_2 →
  find (str node) (str child_2) = (len (str child_1) + len middle)%Z →
  _get_operator_extract node (Z.of_nat delta) =
  Return (String.substring (String.length (str child_1) - delta) delta
            (str child_1) +:+
          middle +:+
          String.substring 0 delta (str child_2)).
Proof.
  intros Hchildren Hstr Hfind. unfold _get_operator_extract.
  rewrite Hchildren. simpl. rewrite Hfind. f_equal.
  apply list_ascii_of_string_inj.
  rewrite !list_ascii_of_string_app, !list_ascii_of_string_substring.
  rewrite drop_0. unfold slice. rewrite list_ascii_of_string_substring.
  rewrite Hstr, !list_ascii_of_string_app.
  set (l1 := String.list_ascii_of_string (str child_1)).
  set (lm := String.list_ascii_of_string middle).
  set (l2 := String.list_ascii_of_string (str child_2)).
  assert (len (str child_1 +:+ middle +:+ str child_2) =
          Z.of_nat (length l1 + length lm + length l2)) as Hlen.
  { unfold len. rewrite <- length_list_ascii_of_string.
    rewrite !list_ascii_of_string_app, !length_app. fold l1 lm l2.
    f_equal. lia. }
  assert (len (str child_1) = Z.of_nat (length l1)) as Hlen1
    by (unfold len, l1; by rewrite length_list_ascii_of_string).
  assert (len (str child_2) = Z.of_nat (length l2)) as Hlen2
    by (unfold len, l2; by rewrite length_list_ascii_of_string).
  assert (len middle = Z.of_nat (length lm)) as Hlenm
    by (unfold len, lm; by rewrite length_list_ascii_of_string).
  assert (String.length (str child_1) = length l1) as Hl1
    by (unfold l1; by rewrite length_list_ascii_of_string).
  rewrite Hlen, Hlen1, Hlen2, Hlenm, Hl1.
  rewrite <- take_drop_around. f_equal; [|f_equal];
    repeat case_match;
    repeat match goal with
           | H : (_ <? _)%Z = true |- _ => apply Z.ltb_lt in H
           | H : (_ <? _)%Z = false |- _ => apply Z.ltb_ge in H
           | H : (_ <=? _)%Z = true |- _ => apply Z.leb_le in H
           | H : (_ <=? _)%Z = false |- _ => apply Z.leb_gt in H
           end; lia.
Qed.

(** ** The tests of the kinds, and [_is_nested] *)

(** X6.  No node passes both [_is_must] and [_is_should], whatever the
    operator of the builder; so the test of [_yield_nested_children] is
    symmetric in the parent and the child, and false of two nodes that pass
    the same test. *)
Theorem boolean_tests_are_exclusive self node parent child :
  _is_must self node && _is_should self node = false ∧
  opposite self parent child = opposite self child parent ∧
  (_is_must self parent = _is_must self child →
   _is_should self parent = _is_should self child →
   opposite self parent child = false).
Proof.
  assert (∀ n : Node Decimal,
            _is_must self n && _is_should self n = false) as Hexcl.
  { intros n. destruct (_is_must self n) eqn:Hmust,
      (_is_should self n) eqn:Hshould; try done.
    apply _is_must_kind in Hmust. apply _is_should_kind in Hshould.
    congruence. }
  split; [done|]. unfold opposite. split.
  - by destruct (_is_should self parent), (_is_must self parent),
      (_is_should self child), (_is_must self child).
  - intros <- <-. pose proof (Hexcl parent) as Hparent.
    by destruct (_is_should self parent), (_is_must self parent).
Qed.

(** X7.  [_is_nested] answers true exactly when a search field stands
    somewhere strictly below the node, at any depth and under any class of
    node: exactly when one of the children of the node holds a search
    field. *)
Theorem _is_nested_finds_search_fields_below node :
  (_is_nested node = true ↔ ∃ d, below d node ∧ type d = TSearchField) ∧
  _is_nested node = negb (forallb search_field_free (children node)).
Proof. split; [apply _is_nested_below | apply _is_nested_children]. Qed.

(** ** Prefix operators *)

(** A parent that is not an operation is of no kind, and opposite to
    nothing. *)
Lemma opposite_not_operation_parent self parent child :
  isinstance parent TAndOperation = false →
  isinstance parent TOrOperation = false →
  isinstance parent TUnknownOperation = false →
  opposite self parent child = false.
Proof. unfold opposite, _is_must, _is_should. by intros -> -> ->. Qed.

Lemma visit_each_without_check self
    (v : Node Decimal → outcome (Item Float)) parent
    (l : list (Node Decimal)) :
  (∀ c, c ∈ l → opposite self parent c = false) →
  visit_each v (_yield_nested_children self parent l) = mapM v l.
Proof.
  induction l as [|c l IH]; intros Hopp; simpl; [done|].
  rewrite Hopp by left. simpl.
  by rewrite IH by (intros c' Hc'; apply Hopp; by right).
Qed.

Lemma compile_unary self (cls : UnaryClass) (a : Node Decimal) :
  compile self (unary cls a) =
  let* items :=
    mapM (compile self)
      (simplify_if_same (children (unary cls a)) (unary cls a)) in
  Return (build (unary_item cls) items).
Proof.
  destruct cls; simpl; rewrite ?compile_not, ?compile_prohibit, ?compile_plus;
    try done.
  unfold _binary_operation. rewrite visit_each_without_check; [done|].
  intros c _. by apply opposite_not_operation_parent.
Qed.

(** X8.  A prefix operator over a node of another class compiles to one
    item over the item of that node, an [EMustNot] for [Not] and
    [Prohibit] and an [EMust] for [Plus], and raises what the node raises:
    no test of kinds is made, whatever stands under the operator.  A prefix
    operator over the same prefix operator compiles as a single one. *)
Theorem prefix_operator_wraps_its_operand self (cls : UnaryClass)
    (a : Node Decimal) :
  type a ≠ type (unary cls a) →
  compile self (unary cls a) =
    (let* item := compile self a in Return (build (unary_item cls) [item])) ∧
  compile self (unary cls (unary cls a)) = compile self (unary cls a).
Proof.
  intros Hty.
  assert (children (unary cls a) = [a]) as Hchildren by (by destruct cls).
  assert (∀ b : Node Decimal, type (unary cls b) = type (unary cls a))
    as Hsame by (intros b; by destruct cls).
  split.
  - rewrite compile_unary, Hchildren.
    rewrite simplify_if_same_cons, bool_decide_eq_false_2 by done. simpl.
    by destruct (compile self a).
  - rewrite !compile_unary.
    assert (children (unary cls (unary cls a)) = [unary cls a]) as ->
      by (by destruct cls).
    rewrite simplify_if_same_cons, bool_decide_eq_true_2
      by (symmetry; apply Hsame).
    rewrite app_nil_r.
    by rewrite (simplify_if_same_current (unary cls (unary cls a))
                  (unary cls a)) by apply Hsame.
Qed.

(** ** Modifiers *)

(** X9.  The three modifiers set three different attributes, so the order
    in which two of them stand over a node does not matter; of two
    modifiers of the same class, the outer one sets the value.  This holds
    of the outcome as a whole, errors included. *)
Theorem modifiers_commute self (expr : Node Decimal) (x y : Decimal) :
  compile self (Boost (Fuzzy expr x) y) =
    compile self (Fuzzy (Boost expr y) x) ∧
  compile self (Boost (Proximity expr x) y) =
    compile self (Proximity (Boost expr y) x) ∧
  compile self (Fuzzy (Proximity expr x) y) =
    compile self (Proximity (Fuzzy expr y) x) ∧
  compile self (Boost (Boost expr x) y) = compile self (Boost expr y) ∧
  compile self (Fuzzy (Fuzzy expr x) y) = compile self (Fuzzy expr y) ∧
  compile self (Proximity (Proximity expr x) y) =
    compile self (Proximity expr y).
Proof.
  repeat split;
    rewrite (compile_eq self (Boost _ _)) || rewrite (compile_eq self (Fuzzy _ _))
      || rewrite (compile_eq self (Proximity _ _));
    symmetry;
    rewrite (compile_eq self (Boost _ _)) || rewrite (compile_eq self (Fuzzy _ _))
      || rewrite (compile_eq self (Proximity _ _));
    cbn [visit_node]; unfold visit_boost, visit_fuzzy, visit_proximity;
    rewrite ?(compile_eq self (Boost expr _)), ?(compile_eq self (Fuzzy expr _)),
      ?(compile_eq self (Proximity expr _));
    cbn [visit_node]; unfold visit_boost, visit_fuzzy, visit_proximity;
    by destruct (compile self expr) as [[]|].
Qed.

(** ** [simplify_if_same], again *)

(** X10.  What [simplify_if_same] yields holds no node of the class of the
    current node, so going through it again changes nothing; and nodes of
    other classes are yielded as they are, in their order. *)
Theorem simplify_if_same_is_idempotent (l : list (Node Decimal)) current_node :
  Forall (fun c => type c ≠ type current_node)
         (simplify_if_same l current_node) ∧
  simplify_if_same (simplify_if_same l current_node) current_node =
    simplify_if_same l current_node ∧
  simplify_if_same (filter (fun c => type c ≠ type current_node) l)
    current_node = filter (fun c => type c ≠ type current_node) l.
Proof.
  assert (Forall (fun c => type c ≠ type current_node)
            (simplify_if_same l current_node)) as Hall.
  { apply Forall_forall. intros c. apply simplify_if_same_type. }
  split; [done|]. split.
  - by apply simplify_if_same_id.
  - apply simplify_if_same_id. apply Forall_forall.
    by intros c [Hty _]%list_elem_of_filter.
Qed.

(** ** Search fields over trees without search fields *)

Lemma leaf_fields_with_attrs (a : attrs Float) enode :
  leaf_fields (with_attrs a enode) = leaf_fields enode.
Proof. by destruct enode. Qed.

Lemma search_field_free_children node child :
  search_field_free node = true → child ∈ children node →
  search_field_free child = true.
Proof.
  rewrite search_field_free_eq. intros [_ Hall]%andb_true_iff Hin.
  by eapply forallb_elem_of.
Qed.

Lemma search_field_free_only_child node (expr : Node Decimal) :
  children node = [expr] → search_field_free node = true →
  search_field_free expr = true.
Proof.
  intros Hchildren Hnode. apply (search_field_free_children node); [done|].
  rewrite Hchildren. left.
Qed.

(** The leaves of the item of a tree without search fields have no field
    yet. *)
Lemma compile_search_field_free self node enode :
  compile self node = Return enode →
  search_field_free node = true →
  Forall (fun fields => fields = []) (leaf_fields enode).
Proof.
  revert node enode.
  apply (compile_Return_ind self (fun node enode =>
    search_field_free node = true →
    Forall (fun fields => fields = []) (leaf_fields enode))).
  - intros value _. by repeat constructor.
  - intros value _. by repeat constructor.
  - intros low high include_low include_high _. by repeat constructor.
  - intros node cls items _ _ Hitems Hfree.
    assert (leaf_fields (build cls items) = flat_map leaf_fields items)
      as -> by (by destruct cls).
    apply Forall_forall. intros fields Hin.
    apply list_elem_of_In, in_flat_map in Hin as (item & Hitem & Hin).
    apply list_elem_of_In, list_elem_of_lookup in Hitem as [i Hi].
    destruct (Forall2_lookup_r _ _ _ _ _ Hitems Hi) as (c & Hc & _ & HP).
    assert (search_field_free c = true) as Hfreec.
    { apply list_elem_of_lookup_2 in Hc. revert Hc.
      apply (simplify_if_same_closed (fun n => search_field_free n = true));
        [|done].
      intros n child. apply search_field_free_children. }
    specialize (HP Hfreec). rewrite Forall_forall in HP.
    by apply HP, list_elem_of_In.
  - intros node expr update a enode _ Hchildren _ HP Hfree.
    rewrite leaf_fields_with_attrs.
    by eapply HP, search_field_free_only_child.
  - intros node expr enode _ Hchildren HP Hfree.
    by eapply HP, search_field_free_only_child.
  - done.
  - intros operands _ _ _. constructor.
Qed.

(** X11.  A search field over a tree in which no other search field stands
    sets its name as the one field of every leaf of the item of the tree,
    however the leaves are nested in operations, groups and modifiers; the
    item is not wrapped in an [ENested] and is otherwise unchanged. *)
Theorem search_field_is_the_field_of_every_leaf self (name : string)
    (expr : Node Decimal) enode :
  known_operator self →
  search_field_free expr = true →
  compile self expr = Return enode →
  ∃ scoped,
    compile self (SearchField name expr) = Return scoped ∧
    Forall (fun fields => fields = [name]) (leaf_fields scoped) ∧
    without_fields scoped = without_fields enode.
Proof.
  intros Hop Hfree Hexpr.
  pose proof (compile_no_none self Hop expr enode Hexpr) as Hnone.
  assert (no_nested enode = true) as Hplain.
  { apply (compile_no_nested self expr); [done|].
    apply search_field_free_levels in Hfree. lia. }
  destruct (_set_search_field_in_all_children_spec name enode Hnone Hplain)
    as (scoped & Hscoped & _ & Hleaves & Hrest).
  exists scoped. split; [|split; [|done]].
  - rewrite compile_eq. cbn [visit_node]. unfold visit_search_field.
    rewrite Hexpr. cbn [bind]. rewrite _is_nested_children. simpl.
    by rewrite Hfree, Hscoped.
  - rewrite Hleaves. apply Forall_fmap.
    eapply Forall_impl; [by eapply compile_search_field_free|].
    by intros fields ->.
Qed.

(** ** The terms of a tree and the leaves of its item *)

Lemma item_leaves_with_attrs (a : attrs Float) enode :
  item_leaves (with_attrs a enode) = item_leaves enode.
Proof. by destruct enode. Qed.

Lemma item_leaves_without_fields :
  ∀ enode : Item Float, item_leaves (without_fields enode) = item_leaves enode.
Proof.
  assert (∀ items : list (Item Float),
            Forall (fun item =>
                      item_leaves (without_fields item) = item_leaves item)
                   items →
            flat_map item_leaves (map without_fields items) =
            flat_map item_leaves items) as Hitems.
  { induction 1 as [|item items Hitem _ IH]; simpl; [done|].
    by rewrite Hitem, IH. }
  apply (Item_nested_ind (fun enode =>
    item_leaves (without_fields enode) = item_leaves enode)); simpl;
    try done; intros; by apply Hitems.
Qed.

Lemma node_leaves_children node :
  type node ∉ [TWord; TPhrase; TRange] →
  node_leaves node = flat_map node_leaves (children node).
Proof.
  intros Hty. destruct node; simpl; rewrite ?app_nil_r; try done;
    contradict Hty; set_solver.
Qed.

Lemma node_leaves_simplify_if_same (l : list (Node Decimal)) current_node :
  type current_node ∉ [TWord; TPhrase; TRange] →
  flat_map node_leaves (simplify_if_same l current_node) =
  flat_map node_leaves l.
Proof.
  intros Hty.
  assert (∀ child, flat_map node_leaves (simplify_child current_node child) =
                   node_leaves child) as Hchild.
  { induction child as [child IH] using depth_ind.
    rewrite simplify_child_eq. case_bool_decide as Hsame;
      [|simpl; by rewrite app_nil_r].
    rewrite (node_leaves_children child) by (by rewrite Hsame).
    pose proof (depth_children child) as Hlt. unfold simplify_if_same.
    induction (children child) as [|c l' IHl]; simpl; [done|].
    rewrite flat_map_app, IH by (apply Hlt; left).
    rewrite IHl; [done|]. intros c' Hc'. apply Hlt. by right. }
  unfold simplify_if_same. induction l as [|c l IH]; simpl; [done|].
  by rewrite flat_map_app, Hchild, IH.
Qed.

Lemma not_a_term node (types : list NodeType) :
  type node ∈ types →
  forallb (fun t => bool_decide (t ∉ [TWord; TPhrase; TRange])) types = true →
  type node ∉ [TWord; TPhrase; TRange].
Proof.
  intros Hin Hall. apply (forallb_elem_of _ _ _ Hall) in Hin.
  by apply bool_decide_eq_true in Hin.
Qed.

(** X12.  The compilation keeps every term: with an operator the builder
    knows, the leaves of the item a tree compiles to are, from left to
    right, the words, phrases and ranges of the tree from left to right.
    Flattening, grouping, negation, modifiers and search fields drop none,
    add none and change no order. *)
Theorem compile_keeps_the_terms self node enode :
  known_operator self →
  compile self node = Return enode →
  item_leaves enode = node_leaves node.
Proof.
  intros Hop. revert node enode.
  apply (compile_Return_ind self (fun node enode =>
    item_leaves enode = node_leaves node)); try done.
  - intros node cls items Hty _ Hitems.
    assert (item_leaves (build cls items) = flat_map item_leaves items)
      as -> by (by destruct cls).
    rewrite node_leaves_children by (eapply not_a_term; [exact Hty|done]).
    rewrite <- (node_leaves_simplify_if_same _ node)
      by (eapply not_a_term; [exact Hty|done]).
    induction Hitems as [|c item l items' [_ Hc] _ IH]; simpl; [done|].
    by rewrite Hc, IH.
  - intros node expr update a enode Hty Hchildren _ HP.
    rewrite item_leaves_with_attrs, HP.
    rewrite (node_leaves_children node) by (eapply not_a_term; [exact Hty|done]).
    rewrite Hchildren. simpl. by rewrite app_nil_r.
  - intros node expr enode Hty Hchildren HP. rewrite HP.
    rewrite (node_leaves_children node) by (eapply not_a_term; [exact Hty|done]).
    rewrite Hchildren. simpl. by rewrite app_nil_r.
  - intros name expr enode scoped HP Hscoped.
    apply _set_search_field_in_all_children_Return in Hscoped as [_ Hrest].
    assert (item_leaves scoped = node_leaves (SearchField name expr)) as Hl.
    { rewrite <- item_leaves_without_fields, Hrest,
        item_leaves_without_fields. done. }
    by destruct (_is_nested (SearchField name expr)).
  - intros operands Hshould Hmust. by destruct Hop.
Qed.

(** ** What the default operator is read for *)

Lemma unknown_free_children node (child : Node Decimal) :
  unknown_free node = true → child ∈ children node →
  unknown_free child = true.
Proof.
  destruct node; simpl; intros Hnode Hin;
    try (by eapply forallb_elem_of);
    repeat (apply elem_of_cons in Hin as [->|Hin]; [done|]);
    by apply elem_of_nil in Hin.
Qed.

Lemma unknown_free_type (node : Node Decimal) :
  unknown_free node = true → isinstance node TUnknownOperation = false.
Proof. by destruct node. Qed.

(** The two tests read the operator for an unknown operation only. *)
Lemma opposite_explicit self1 self2 (parent child : Node Decimal) :
  isinstance parent TUnknownOperation = false →
  isinstance child TUnknownOperation = false →
  opposite self1 parent child = opposite self2 parent child.
Proof. unfold opposite, _is_must, _is_should. by intros -> ->. Qed.

Lemma visit_each_explicit self1 self2
    (v1 v2 : Node Decimal → outcome (Item Float)) parent
    (l : list (Node Decimal)) :
  isinstance parent TUnknownOperation = false →
  (∀ c, c ∈ l → isinstance c TUnknownOperation = false ∧ v1 c = v2 c) →
  visit_each v1 (_yield_nested_children self1 parent l) =
  visit_each v2 (_yield_nested_children self2 parent l).
Proof.
  intros Hparent. induction l as [|c l IH]; intros Hl; simpl; [done|].
  destruct (Hl c) as [Hc Hv]; [left|].
  rewrite (opposite_explicit self1 self2) by done.
  destruct (opposite self2 parent c);
    [by destruct (_get_operator_extract c 8)|]. simpl.
  rewrite Hv, IH; [done|]. intros c' Hc'. apply Hl. by right.
Qed.

(** X13.  The default operator is read for unknown operations only: two
    builders with the same default field compile a tree without unknown
    operations to the same result, item or error, whatever their default
    operators are. *)
Theorem explicit_tree_ignores_the_default_operator self1 self2 node :
  default_field self1 = default_field self2 →
  unknown_free node = true →
  compile self1 node = compile self2 node.
Proof.
  intros Hfield. induction node as [node IH] using depth_ind. intros Hfree.
  assert (∀ c, c ∈ simplify_if_same (children node) node →
               unknown_free c = true) as Hchildren.
  { intros c. apply (simplify_if_same_closed
      (fun n => unknown_free n = true)); [|done].
    intros n child. apply unknown_free_children. }
  assert (∀ cls, _binary_operation self1 (compile self1) cls node =
                 _binary_operation self2 (compile self2) cls node) as Hbin.
  { intros cls. unfold _binary_operation.
    rewrite (visit_each_explicit self1 self2 _ (compile self2)); [done| |].
    - by apply unknown_free_type.
    - intros c Hc. split; [by apply unknown_free_type, Hchildren|].
      apply IH; [by apply simplify_if_same_depth | by apply Hchildren]. }
  assert (visit_not (compile self1) node = visit_not (compile self2) node)
    as Hnot.
  { unfold visit_not. erewrite mapM_ext; [done|]. intros c Hc.
    apply IH; [by apply simplify_if_same_depth | by apply Hchildren]. }
  rewrite !compile_eq.
  destruct node; simpl in *; try done;
    unfold visit_word, visit_phrase, visit_and_operation, visit_or_operation,
      visit_prohibit, visit_plus, _must_operation, _should_operation,
      visit_boost, visit_fuzzy, visit_proximity, visit_group,
      visit_field_group, visit_search_field;
    rewrite ?Hfield, ?Hbin, ?Hnot; try done;
    rewrite IH by (simpl; (lia || done)); done.
Qed.

(** ** Groups *)

Lemma visit_each_replace self (v : Node Decimal → outcome (Item Float))
    parent (pre post : list (Node Decimal)) (c1 c2 : Node Decimal) :
  opposite self parent c1 = opposite self parent c2 →
  _get_operator_extract c1 8 = _get_operator_extract c2 8 ∨
    opposite self parent c1 = false →
  v c1 = v c2 →
  visit_each v (_yield_nested_children self parent (pre ++ c1 :: post)) =
  visit_each v (_yield_nested_children self parent (pre ++ c2 :: post)).
Proof.
  intros Hopp Hextract Hv. induction pre as [|c pre IH]; simpl.
  - rewrite <- Hopp. destruct (opposite self parent c1) eqn:Hc1.
    + by destruct Hextract as [->|].
    + simpl. by rewrite Hv.
  - destruct (opposite self parent c); [done|]. simpl. by rewrite IH.
Qed.

(** X14.  A group, or a field group, around an operand that is not itself
    an operation changes nothing: the operation compiles to the same
    result, item or error, as with the operand bare. *)
Theorem group_around_a_plain_operand_is_transparent self
    (cls : OperationClass) (pre post : list (Node Decimal))
    (expr : Node Decimal) :
  type expr ∉ [TAndOperation; TOrOperation; TUnknownOperation] →
  compile self (operation cls (pre ++ Group expr :: post)) =
    compile self (operation cls (pre ++ expr :: post)) ∧
  compile self (operation cls (pre ++ FieldGroup expr :: post)) =
    compile self (operation cls (pre ++ expr :: post)).
Proof.
  intros Hty.
  assert (isinstance expr TAndOperation = false ∧
          isinstance expr TOrOperation = false ∧
          isinstance expr TUnknownOperation = false) as (Hand & Hor & Hunknown).
  { unfold isinstance. repeat split; apply bool_decide_eq_false;
      intros Heq; apply Hty; rewrite Heq; set_solver. }
  assert (type expr ≠ operation_type cls) as Hcls.
  { intros Heq. apply Hty. rewrite Heq. destruct cls; set_solver. }
  assert (∀ wrapped : Node Decimal,
            type wrapped ∈ [TGroup; TFieldGroup] →
            compile self wrapped = compile self expr →
            compile self (operation cls (pre ++ wrapped :: post)) =
            compile self (operation cls (pre ++ expr :: post))) as Hwrapped.
  { intros wrapped Hwty Hw. rewrite !compile_operation.
    destruct (built_by self cls) as [ecls|]; [|done].
    unfold _binary_operation. rewrite !children_operation.
    set (p1 := operation cls (pre ++ wrapped :: post)).
    set (p2 := operation cls (pre ++ expr :: post)).
    assert (type p1 = type p2) as Hp
      by (unfold p1, p2; by rewrite !type_operation).
    rewrite (simplify_if_same_current p1 p2) by done.
    rewrite (_yield_nested_children_type self p1 p2) by done.
    rewrite !simplify_if_same_app, !simplify_if_same_cons.
    assert (type wrapped ≠ type p2) as Hwp.
    { unfold p2. rewrite type_operation. intros Heq. rewrite Heq in Hwty.
      destruct cls;
        repeat (apply elem_of_cons in Hwty as [Hwty|Hwty]; [done|]);
        by apply elem_of_nil in Hwty. }
    rewrite !bool_decide_eq_false_2
      by (done || (unfold p2; by rewrite type_operation)).
    assert (opposite self p2 wrapped = false) as Hoppw.
    { apply opposite_not_operation; unfold isinstance;
        apply bool_decide_eq_false; intros Heq; rewrite Heq in Hwty;
        repeat (apply elem_of_cons in Hwty as [Hwty|Hwty]; [done|]);
        by apply elem_of_nil in Hwty. }
    assert (opposite self p2 expr = false) as Hoppe
      by (by apply opposite_not_operation).
    cbn [app].
    by rewrite (visit_each_replace self _ p2 _ _ wrapped expr)
      by (congruence || by right). }
  split; apply Hwrapped.
  - set_solver.
  - apply compile_group.
  - set_solver.
  - apply compile_field_group.
Qed.

(** ** [None] for an item *)

Lemma _set_search_field_in_all_children_not_None (field_name : string)
    enode :
  _set_search_field_in_all_children enode field_name ≠ Return PyNone.
Proof.
  destruct enode; simpl; try done;
    by intros (items' & _ & [=])%bind_Return.
Qed.

(** Without an operator the builder knows, an unknown operation is [None],
    and so is it in groups. *)
Lemma compile_without_operator self node :
  ¬ known_operator self →
  type (ungrouped node) = TUnknownOperation →
  compile self node = Return PyNone.
Proof.
  intros Hop. induction node; simpl; try done; intros Hty.
  - rewrite compile_unknown. unfold visit_unknown_operation.
    repeat case_bool_decide; try done; contradict Hop; by constructor.
  - rewrite compile_field_group. auto.
Qed.

(** X15.  The compilation returns [None] for an item in one case only: the
    default operator is neither of the two the builder knows, and the tree
    is an unknown operation, bare or in groups and field groups. *)
Theorem none_only_for_an_unknown_operation self node :
  compile self node = Return PyNone →
  ¬ known_operator self ∧ type (ungrouped node) = TUnknownOperation.
Proof.
  revert node. cut (∀ node enode, compile self node = Return enode →
    enode = PyNone →
    ¬ known_operator self ∧ type (ungrouped node) = TUnknownOperation).
  { intros Hcut node Hnode. by eapply Hcut. }
  apply (compile_Return_ind self (fun node enode => enode = PyNone →
    ¬ known_operator self ∧ type (ungrouped node) = TUnknownOperation));
    try done.
  - intros node cls items _ _ _. by destruct cls.
  - intros node expr update a enode _ _ Ha _. by destruct enode.
  - intros node expr enode Hty Hchildren HP ->.
    destruct node; simpl in *;
      try (repeat (apply elem_of_cons in Hty as [Hty|Hty]; [done|]);
           by apply elem_of_nil in Hty);
      injection Hchildren as ->; by apply HP.
  - intros name expr enode scoped _ Hscoped Hnone.
    destruct (_is_nested (SearchField name expr)); [done|]. subst scoped.
    by apply _set_search_field_in_all_children_not_None in Hscoped.
  - intros operands Hshould Hmust _. split; [|done]. by intros [?|?].
Qed.

(** X16.  [None] has no attribute to assign and no items to go through:
    when the default operator is neither of the two the builder knows, a
    boost, a fuzzy search and a proximity search over an unknown operation,
    bare or in groups, raise [AttributeError], and so does a search field
    over it with no search field below. *)
Theorem none_has_no_attribute self (expr : Node Decimal) (x : Decimal)
    (name : string) :
  ¬ known_operator self →
  type (ungrouped expr) = TUnknownOperation →
  compile self (Boost expr x) = Raise AttributeError ∧
  compile self (Fuzzy expr x) = Raise AttributeError ∧
  compile self (Proximity expr x) = Raise AttributeError ∧
  (_is_nested (SearchField name expr) = false →
   compile self (SearchField name expr) = Raise AttributeError).
Proof.
  intros Hop Hty.
  pose proof (compile_without_operator self expr Hop Hty) as Hexpr.
  split; [|split; [|split]]; try intros Hnested; rewrite compile_eq;
    cbn [visit_node];
    unfold visit_boost, visit_fuzzy, visit_proximity, visit_search_field;
    rewrite Hexpr; cbn [bind]; try done.
  by rewrite Hnested.
Qed.

(** ** The order of the tests and of the visits *)

(** X17.  The children of an operation are tested and visited in turn, and
    the first failure is what the operation raises.  After children that
    pass the test and compile, a child of the opposite kind raises the
    ambiguity error without being visited, whatever stands after it; a
    child that passes the test and whose compilation raises, raises that
    error, even when a child of the opposite kind stands after it. *)
Theorem first_failure_is_raised self (cls : OperationClass)
    (ecls : EOperation) operands (pre post : list (Node Decimal))
    (c : Node Decimal) items :
  built_by self cls = Some ecls →
  simplify_if_same operands (operation cls operands) = pre ++ c :: post →
  Forall (fun child => opposite self (operation cls operands) child = false)
    pre →
  mapM (compile self) pre = Return items →
  (opposite self (operation cls operands) c = true →
   compile self (operation cls operands) =
     match _get_operator_extract c 8 with
     | Return extract => Raise (OrAndAndOnSameLevel extract)
     | Raise e => Raise e
     end) ∧
  (opposite self (operation cls operands) c = false →
   ∀ e, compile self c = Raise e →
        compile self (operation cls operands) = Raise e).
Proof.
  intros Hbuilt Hsimplify Hpre Hitems.
  rewrite compile_operation, Hbuilt. unfold _binary_operation.
  rewrite children_operation, Hsimplify.
  rewrite (visit_each_prefix _ _ _ _ _ _ Hpre Hitems). simpl.
  split.
  - intros ->. by destruct (_get_operator_extract c 8).
  - intros -> e He. simpl. by rewrite He.
Qed.

End Properties.

(** * The properties on the builders of the examples *)

(** The examples of the docstrings of the source. *)

Example _get_operator_extract_doctest :
  _get_operator_extract (OrOperation [Word "Python"; Word "Monty"]) 3 =
  Return "hon OR Mon".
Proof. reflexivity. Qed.

Example _is_must_doctest :
  _is_must must_builder (AndOperation [Word "Monty"; Word "Python"] : Node Z) =
  true.
Proof. reflexivity. Qed.

Example _is_should_doctest :
  _is_should must_builder (OrOperation [Word "Monty"; Word "Python"] : Node Z) =
  true.
Proof. reflexivity. Qed.

Example _yield_nested_children_doctest :
  let op := OrOperation [Word "yo"; OrOperation [Word "lo"; Word "py"]] in
  _yield_nested_children should_builder op (children op) =
  Yield (Word "yo")
    (Yield (OrOperation [Word "lo"; Word "py"]) Exhausted).
Proof. reflexivity. Qed.

Example _yield_nested_children_raises_doctest :
  let op := OrOperation [Word "yo"; AndOperation [Word "lo"; Word "py"]] in
  _yield_nested_children should_builder op (children op) =
  Yield (Word "yo") (Raising (OrAndAndOnSameLevel "lo AND py")).
Proof. reflexivity. Qed.

(** The queries of the tests, and those of the properties. *)

Example compile_flat_mix :
  compile should_builder
    (OrOperation [Word "a"; AndOperation [Word "b"; Word "c"]]) =
  Raise (OrAndAndOnSameLevel "b AND c").
Proof. reflexivity. Qed.

Example compile_grouped_mix :
  compile should_builder
    (OrOperation [Word "a"; Group (AndOperation [Word "b"; Word "c"])]) =
  Return (EShould
            [EWord "a" "text" [] no_attrs;
             EMust [EWord "b" "text" [] no_attrs;
                    EWord "c" "text" [] no_attrs] no_attrs]
            no_attrs).
Proof. reflexivity. Qed.

Example compile_boost :
  compile should_builder (SearchField "title" (Boost (Phrase "Phoenix") 4%Z)) =
  Return (EPhrase "Phoenix" "text" ["title"]
            {| boost := Some 4%float; fuzziness := None; slop := None |}).
Proof. reflexivity. Qed.

Example compile_fuzzy :
  compile should_builder (SearchField "ref" (Fuzzy (Word "BB") 1%Z)) =
  Return (EWord "BB" "text" ["ref"]
            {| boost := None; fuzziness := Some 1%float; slop := None |}).
Proof. reflexivity. Qed.

Example compile_proximity :
  compile should_builder
    (SearchField "title" (Proximity (Phrase "Harry Potter") 6%Z)) =
  Return (EPhrase "Harry Potter" "text" ["title"]
            {| boost := None; fuzziness := None; slop := Some 6%float |}).
Proof. reflexivity. Qed.

Example compile_unknown_operation_in_group :
  compile should_builder
    (Group (UnknownOperation
              [SearchField "title" (Word "Phoenix");
               SearchField "ref" (Word "HP5")])) =
  Return (EShould [EWord "Phoenix" "text" ["title"] no_attrs;
                   EWord "HP5" "text" ["ref"] no_attrs] no_attrs).
Proof. reflexivity. Qed.

(** Outside what the parser builds and the operators the builder knows,
    the interpreter raises errors of its own: the extract of an operation
    with no operand, an attribute set on the [None] an unknown operation
    compiles to. *)

Example compile_mix_without_operands :
  compile should_builder (AndOperation [Word "a"; OrOperation []]) =
  Raise IndexError.
Proof. reflexivity. Qed.

Example compile_boost_of_none :
  compile other_builder (Boost (UnknownOperation [Word "a"; Word "b"]) 2%Z) =
  Raise AttributeError.
Proof. reflexivity. Qed.

(** ** Instances of the theorems *)


Lemma same_class_children_witness :
  built_by should_builder CAnd = Some CMust ∧
  Forall2 (fun (operand : Node Z) (item : Item PrimFloat.float) =>
             type operand ≠ operation_type CAnd ∧
             (∀ kind, boolean_kind should_builder operand = Some kind →
                      kind = CMust) ∧
             compile should_builder operand = Return item)
          [Word "a"; Phrase "b c"; Word "d"; Range "1" "10" true false]
          [EWord "a" "text" [] no_attrs;
           EPhrase "b c" "text" [] no_attrs;
           EWord "d" "text" [] no_attrs;
           ERange {[ "gte" := "1"; "lt" := "10" ]} [] no_attrs] ∧
  compile should_builder
    (AndOperation
       [Word "a";
        AndOperation
          [Phrase "b c";
           AndOperation [Word "d"; Range "1" "10" true false]]]) =
  Return (EMust [EWord "a" "text" [] no_attrs;
                 EPhrase "b c" "text" [] no_attrs;
                 EWord "d" "text" [] no_attrs;
                 ERange {[ "gte" := "1"; "lt" := "10" ]} [] no_attrs]
            no_attrs).
Proof.
  assert (Forall2 (fun (operand : Node Z) (item : Item PrimFloat.float) =>
             type operand ≠ operation_type CAnd ∧
             (∀ kind, boolean_kind should_builder operand = Some kind →
                      kind = CMust) ∧
             compile should_builder operand = Return item)
          [Word "a"; Phrase "b c"; Word "d"; Range "1" "10" true false]
          [EWord "a" "text" [] no_attrs;
           EPhrase "b c" "text" [] no_attrs;
           EWord "d" "text" [] no_attrs;
           ERange {[ "gte" := "1"; "lt" := "10" ]} [] no_attrs]) as Hall.
  { repeat constructor; simpl; try reflexivity; discriminate. }
  split; [reflexivity|]. split; [exact Hall|].
  exact (proj1 (proj2 (same_class_children_are_spliced should_builder CAnd CMust
                  _ _ _ _ _ _ _ _ eq_refl Hall))).
Defined.

Lemma search_field_witness :
  known_operator should_builder ∧
  compile should_builder (FieldGroup (SearchField "nationality" (Word "UK"))) =
    Return (EWord "UK" "text" ["nationality"] no_attrs) ∧
  search_field_levels
    (FieldGroup (SearchField "nationality" (Word "UK")) : Node Z) ≤ 1 ∧
  ∃ scoped : Item PrimFloat.float,
    leaf_fields scoped =
      map (cons "illustrators")
        (leaf_fields (EWord "UK" "text" ["nationality"] no_attrs
                      : Item PrimFloat.float)) ∧
    without_fields scoped =
      without_fields (EWord "UK" "text" ["nationality"] no_attrs) ∧
    ((∃ d : Node Z,
        below d (SearchField "illustrators"
                   (FieldGroup (SearchField "nationality" (Word "UK")))) ∧
        type d = TSearchField) →
     compile should_builder
       (SearchField "illustrators"
          (FieldGroup (SearchField "nationality" (Word "UK")))) =
       Return (ENested "illustrators" scoped no_attrs)) ∧
    (¬ (∃ d : Node Z,
          below d (SearchField "illustrators"
                     (FieldGroup (SearchField "nationality" (Word "UK")))) ∧
          type d = TSearchField) →
     compile should_builder
       (SearchField "illustrators"
          (FieldGroup (SearchField "nationality" (Word "UK")))) =
       Return scoped) ∧
    compile should_builder
      (SearchField "illustrators"
         (FieldGroup (SearchField "nationality" (Word "UK")))) =
      Return (ENested "illustrators"
                (EWord "UK" (default_field should_builder)
                   ["illustrators"; "nationality"] no_attrs)
                no_attrs) ∧
    field (default_field should_builder) ["illustrators"; "nationality"] =
      "illustrators.nationality".
Proof.
  split; [left; reflexivity|]. split; [reflexivity|].
  split; [vm_compute; lia|].
  apply (search_field_sets_field_in_leaves should_builder "illustrators"
           (FieldGroup (SearchField "nationality" (Word "UK")))
           (EWord "UK" "text" ["nationality"] no_attrs)).
  - left; reflexivity.
  - reflexivity.
  - vm_compute; lia.
Defined.

Lemma search_field_over_nested_witness :
  known_operator should_builder ∧
  compile should_builder
    (FieldGroup (SearchField "b" (FieldGroup (SearchField "c" (Word "x"))))) =
    Return (ENested "b" (EWord "x" "text" ["b"; "c"] no_attrs) no_attrs) ∧
  2 ≤ search_field_levels
        (FieldGroup (SearchField "b" (FieldGroup (SearchField "c" (Word "x"))))
         : Node Z) ∧
  compile should_builder
    (SearchField "a"
       (FieldGroup
          (SearchField "b" (FieldGroup (SearchField "c" (Word "x")))))) =
    Raise TypeError.
Proof.
  split; [left; reflexivity|]. split; [reflexivity|].
  split; [vm_compute; lia|].
  apply (search_field_over_nested_raises_TypeError should_builder "a"
           (FieldGroup
              (SearchField "b" (FieldGroup (SearchField "c" (Word "x")))))
           (ENested "b" (EWord "x" "text" ["b"; "c"] no_attrs) no_attrs)).
  - left; reflexivity.
  - reflexivity.
  - vm_compute; lia.
Defined.


Lemma explicit_operations_witness :
  explicit_boolean
    (AndOperation
       [Word "a"; AndOperation [Word "b"; Not (OrOperation [Word "c"; Word "d"])]]
     : Node Z) = true ∧
  compile should_builder
    (AndOperation
       [Word "a"; AndOperation [Word "b"; Not (OrOperation [Word "c"; Word "d"])]]) =
    Return (EMust
              [EWord "a" "text" [] no_attrs;
               EWord "b" "text" [] no_attrs;
               EMustNot
                 [EShould [EWord "c" "text" [] no_attrs;
                           EWord "d" "text" [] no_attrs] no_attrs]
                 no_attrs]
              no_attrs) ∧
  flattened
    (EMust
       [EWord "a" "text" [] no_attrs;
        EWord "b" "text" [] no_attrs;
        EMustNot
          [EShould [EWord "c" "text" [] no_attrs;
                    EWord "d" "text" [] no_attrs] no_attrs]
          no_attrs]
       no_attrs : Item PrimFloat.float) = true.
Proof.
  split; [reflexivity|]. split; [reflexivity|].
  apply (explicit_operations_are_flattened should_builder
           (AndOperation
              [Word "a";
               AndOperation [Word "b"; Not (OrOperation [Word "c"; Word "d"])]])).
  - reflexivity.
  - reflexivity.
Defined.

Lemma unknown_operation_as_default_witness :
  (default_operator should_builder = SHOULD ∧ COr = COr ∨
   default_operator should_builder = MUST ∧ COr = CAnd) ∧
  Forall (fun operand : Node Z =>
            type operand ≠ operation_type COr ∧
            type operand ≠ TUnknownOperation)
         [Word "a"; Word "b"] ∧
  compile should_builder (UnknownOperation [Word "a"; Word "b"]) =
  compile should_builder (operation COr [Word "a"; Word "b"]).
Proof.
  assert (Forall (fun operand : Node Z =>
            type operand ≠ operation_type COr ∧
            type operand ≠ TUnknownOperation)
         [Word "a"; Word "b"]) as Hall.
  { repeat constructor; discriminate. }
  split; [left; split; reflexivity|]. split; [exact Hall|].
  apply (unknown_operation_as_default should_builder COr [Word "a"; Word "b"]).
  - left; split; reflexivity.
  - exact Hall.
Defined.

Lemma unknown_operation_without_operator_witness :
  default_operator other_builder ≠ SHOULD ∧
  default_operator other_builder ≠ MUST ∧
  compile other_builder (UnknownOperation [Word "a"; Word "b"]) =
  Return PyNone.
Proof.
  split; [discriminate|]. split; [discriminate|].
  apply (unknown_operation_without_operator other_builder
           [Word "a"; Word "b"]); discriminate.
Defined.

Lemma modifiers_witness :
  compile should_builder (Phrase "Phoenix") =
    Return (EPhrase "Phoenix" "text" [] no_attrs) ∧
  (EPhrase "Phoenix" "text" [] no_attrs : Item PrimFloat.float) ≠ PyNone ∧
  ∃ a : attrs PrimFloat.float,
    item_attrs (EPhrase "Phoenix" "text" [] no_attrs) = Some a ∧
    compile should_builder (Boost (Phrase "Phoenix") 4%Z) =
      Return (with_attrs {| boost := Some (float 4%Z);
                            fuzziness := fuzziness a;
                            slop := slop a |}
                (EPhrase "Phoenix" "text" [] no_attrs)) ∧
    compile should_builder (Fuzzy (Phrase "Phoenix") 4%Z) =
      Return (with_attrs {| boost := boost a;
                            fuzziness := Some (float 4%Z);
                            slop := slop a |}
                (EPhrase "Phoenix" "text" [] no_attrs)) ∧
    compile should_builder (Proximity (Phrase "Phoenix") 4%Z) =
      Return (with_attrs {| boost := boost a;
                            fuzziness := fuzziness a;
                            slop := Some (float 4%Z) |}
                (EPhrase "Phoenix" "text" [] no_attrs)).
Proof.
  split; [reflexivity|]. split; [discriminate|].
  apply (modifiers_set_one_attribute should_builder (Phrase "Phoenix") 4%Z
           (EPhrase "Phoenix" "text" [] no_attrs)).
  - reflexivity.
  - discriminate.
Defined.

Lemma negation_witness :
  ((Not : Node Z → Node Z) = Not ∨ (Not : Node Z → Node Z) = Prohibit) ∧
  compile should_builder (OrOperation [Word "b"; Word "c"]) =
    Return (EShould [EWord "b" "text" [] no_attrs;
                     EWord "c" "text" [] no_attrs] no_attrs) ∧
  succeeds (compile should_builder (AndOperation ([Word "a"] ++ []))) ∧
  opposite should_builder
    (AndOperation ([Word "a"] ++ Not (OrOperation [Word "b"; Word "c"]) :: []))
    (Not (OrOperation [Word "b"; Word "c"]) : Node Z) = false ∧
  ∃ items1 items2 : list (Item PrimFloat.float),
    compile should_builder (AndOperation ([Word "a"] ++ [])) =
      Return (EMust (items1 ++ items2) no_attrs) ∧
    compile should_builder
      (AndOperation
         ([Word "a"] ++ Not (OrOperation [Word "b"; Word "c"]) :: [])) =
      Return (EMust
                (items1 ++
                 EMustNot
                   [EShould [EWord "b" "text" [] no_attrs;
                             EWord "c" "text" [] no_attrs] no_attrs]
                   no_attrs :: items2)
                no_attrs).
Proof.
  assert (succeeds (compile should_builder (AndOperation ([Word "a"] ++ []))))
    as Hrest by (eexists; reflexivity).
  split; [left; reflexivity|]. split; [reflexivity|]. split; [exact Hrest|].
  apply (negation_keeps_and_from_or should_builder Not [Word "a"]
           [Word "b"; Word "c"] []).
  - left; reflexivity.
  - reflexivity.
  - exact Hrest.
Defined.

(** ** Where the properties as the specification states them fail *)


(** C2 as stated fails: the parentheses of a query are [Group] nodes, and
    a conjunction in a group is not of the class of the conjunction it
    stands in, so it is kept as an item of its own. *)
Lemma grouped_nesting_counterexample :
  compile should_builder
    (AndOperation
       [Word "A";
        Group (AndOperation
                 [Word "B"; Group (AndOperation [Word "C"; Word "D"])])]) =
    Return (EMust
              [EWord "A" "text" [] no_attrs;
               EMust [EWord "B" "text" [] no_attrs;
                      EMust [EWord "C" "text" [] no_attrs;
                             EWord "D" "text" [] no_attrs] no_attrs]
                 no_attrs]
              no_attrs) ∧
  compile should_builder
    (AndOperation
       [Word "A"; Group (AndOperation [Word "B"; Word "C"])]) =
    Return (EMust
              [EWord "A" "text" [] no_attrs;
               EMust [EWord "B" "text" [] no_attrs;
                      EWord "C" "text" [] no_attrs] no_attrs]
              no_attrs) ∧
  compile should_builder
    (AndOperation
       [Group (AndOperation [Word "A"; Word "B"]); Word "C"]) =
    Return (EMust
              [EMust [EWord "A" "text" [] no_attrs;
                      EWord "B" "text" [] no_attrs] no_attrs;
               EWord "C" "text" [] no_attrs]
              no_attrs) ∧
  compile should_builder
    (AndOperation
       [Word "A";
        Group (AndOperation
                 [Word "B"; Group (AndOperation [Word "C"; Word "D"])])]) ≠
    Return (EMust
              [EWord "A" "text" [] no_attrs;
               EWord "B" "text" [] no_attrs;
               EWord "C" "text" [] no_attrs;
               EWord "D" "text" [] no_attrs]
              no_attrs).
Proof. repeat split; try reflexivity. discriminate. Qed.


(** C6 as stated fails: an unknown operation keeps a disjunction among its
    operands as one item, and the disjunction over the same operands takes
    the operands of that disjunction for its own. *)
Lemma unknown_operation_counterexample :
  default_operator should_builder = SHOULD ∧
  compile should_builder
    (UnknownOperation [Word "a"; OrOperation [Word "b"; Word "c"]]) =
    Return (EShould [EWord "a" "text" [] no_attrs;
                     EShould [EWord "b" "text" [] no_attrs;
                              EWord "c" "text" [] no_attrs] no_attrs]
              no_attrs) ∧
  compile should_builder
    (OrOperation [Word "a"; OrOperation [Word "b"; Word "c"]]) =
    Return (EShould [EWord "a" "text" [] no_attrs;
                     EWord "b" "text" [] no_attrs;
                     EWord "c" "text" [] no_attrs] no_attrs) ∧
  compile should_builder
    (UnknownOperation [Word "a"; OrOperation [Word "b"; Word "c"]]) ≠
  compile should_builder
    (OrOperation [Word "a"; OrOperation [Word "b"; Word "c"]]).
Proof. repeat split; try reflexivity. discriminate. Qed.

(** * The further properties on examples *)

Lemma compile_returns_an_item_or_an_ambiguity_witness :
  known_operator should_builder ∧
  binary_operations
    (AndOperation [Word "a"; OrOperation [Word "b"; Word "c"]] : Node Z) =
    true ∧
  search_field_levels
    (AndOperation [Word "a"; OrOperation [Word "b"; Word "c"]] : Node Z) ≤ 2 ∧
  ((∃ enode,
      compile should_builder
        (AndOperation [Word "a"; OrOperation [Word "b"; Word "c"]]) =
      Return enode ∧ no_none enode = true) ∨
   (∃ extract,
      compile should_builder
        (AndOperation [Word "a"; OrOperation [Word "b"; Word "c"]]) =
      Raise (OrAndAndOnSameLevel extract))).
Proof.
  split; [left; reflexivity|]. split; [reflexivity|].
  split; [vm_compute; lia|].
  apply (compile_returns_an_item_or_an_ambiguity should_builder
           (AndOperation [Word "a"; OrOperation [Word "b"; Word "c"]])).
  - left. reflexivity.
  - reflexivity.
  - vm_compute; lia.
Defined.


Lemma one_kind_always_compiles_witness :
  known_operator should_builder ∧
  (CMust = CMust ∨ CMust = CShould) ∧
  kind_free should_builder CMust
    (OrOperation
       [Word "a"; UnknownOperation [Word "b"; Not (Phrase "c d")]]
     : Node Z) = true ∧
  search_field_levels
    (OrOperation
       [Word "a"; UnknownOperation [Word "b"; Not (Phrase "c d")]]
     : Node Z) ≤ 2 ∧
  succeeds
    (compile should_builder
       (OrOperation
          [Word "a"; UnknownOperation [Word "b"; Not (Phrase "c d")]])).
Proof.
  split; [left; reflexivity|]. split; [left; reflexivity|].
  split; [reflexivity|]. split; [vm_compute; lia|].
  apply (one_kind_always_compiles should_builder CMust
           (OrOperation
              [Word "a"; UnknownOperation [Word "b"; Not (Phrase "c d")]])).
  - left. reflexivity.
  - left. reflexivity.
  - reflexivity.
  - vm_compute; lia.
Defined.

Lemma short_opposite_operand_raises_IndexError_witness :
  opposite should_builder
    (operation COr (AndOperation [Word "a"] :: [Word "b"]) : Node Z)
    (AndOperation [Word "a"]) = true ∧
  length (children (AndOperation [Word "a"] : Node Z)) < 2 ∧
  compile should_builder
    (operation COr (AndOperation [Word "a"] :: [Word "b"])) =
  Raise IndexError.
Proof.
  split; [reflexivity|]. split; [simpl; lia|].
  apply (short_opposite_operand_raises_IndexError should_builder COr
           (AndOperation [Word "a"]) [Word "b"]).
  - reflexivity.
  - simpl. lia.
Defined.

Lemma extract_is_around_the_operator_witness :
  children (OrOperation [Word "Python"; Word "Monty"] : Node Z) =
    [Word "Python"; Word "Monty"] ∧
  str (OrOperation [Word "Python"; Word "Monty"]) =
    str (Word "Python" : Node Z) +:+ " OR " +:+ str (Word "Monty" : Node Z) ∧
  find (str (OrOperation [Word "Python"; Word "Monty"]))
       (str (Word "Monty" : Node Z)) =
    (len (str (Word "Python" : Node Z)) + len " OR ")%Z ∧
  _get_operator_extract (OrOperation [Word "Python"; Word "Monty"]) 3 =
    Return "hon OR Mon".
Proof.
  split; [reflexivity|]. split; [reflexivity|]. split; [reflexivity|].
  exact (extract_is_around_the_operator
           (OrOperation [Word "Python"; Word "Monty"])
           (Word "Python") (Word "Monty") [] " OR " 3
           eq_refl eq_refl eq_refl).
Defined.

Lemma prefix_operator_wraps_its_operand_witness :
  type (Phrase "a b" : Node Z) ≠ type (unary CNot (Phrase "a b" : Node Z)) ∧
  compile should_builder (unary CNot (Phrase "a b")) =
    (let* item := compile should_builder (Phrase "a b") in
     Return (build (unary_item CNot) [item])) ∧
  compile should_builder (unary CNot (unary CNot (Phrase "a b"))) =
    compile should_builder (unary CNot (Phrase "a b")).
Proof.
  split; [discriminate|].
  apply (prefix_operator_wraps_its_operand should_builder CNot (Phrase "a b")).
  discriminate.
Defined.

Lemma search_field_is_the_field_of_every_leaf_witness :
  known_operator should_builder ∧
  search_field_free
    (OrOperation [Word "a"; Group (Boost (Phrase "b c") 2%Z)] : Node Z) = true ∧
  compile should_builder
    (OrOperation [Word "a"; Group (Boost (Phrase "b c") 2%Z)]) =
    Return (EShould
              [EWord "a" "text" [] no_attrs;
               EPhrase "b c" "text" [] (set_boost (float_of_Z 2) no_attrs)]
              no_attrs) ∧
  ∃ scoped,
    compile should_builder
      (SearchField "title"
         (OrOperation [Word "a"; Group (Boost (Phrase "b c") 2%Z)])) =
      Return scoped ∧
    Forall (fun fields => fields = ["title"]) (leaf_fields scoped) ∧
    without_fields scoped =
      without_fields
        (EShould
           [EWord "a" "text" [] no_attrs;
            EPhrase "b c" "text" [] (set_boost (float_of_Z 2) no_attrs)]
           no_attrs).
Proof.
  split; [left; reflexivity|]. split; [reflexivity|]. split; [reflexivity|].
  apply (search_field_is_the_field_of_every_leaf should_builder "title"
           (OrOperation [Word "a"; Group (Boost (Phrase "b c") 2%Z)])).
  - left. reflexivity.
  - reflexivity.
  - reflexivity.
Defined.

Lemma compile_keeps_the_terms_witness :
  known_operator must_builder ∧
  compile must_builder
    (UnknownOperation
       [Word "a"; Not (Phrase "b c"); Range "1" "9" true false]) =
    Return (EMust
              [EWord "a" "text" [] no_attrs;
               EMustNot [EPhrase "b c" "text" [] no_attrs] no_attrs;
               ERange {[ "gte" := "1"; "lt" := "9" ]} [] no_attrs]
              no_attrs) ∧
  item_leaves
    (EMust
       [EWord "a" "text" [] no_attrs;
        EMustNot [EPhrase "b c" "text" [] no_attrs] no_attrs;
        ERange {[ "gte" := "1"; "lt" := "9" ]} [] no_attrs]
       no_attrs : Item PrimFloat.float) =
  node_leaves
    (UnknownOperation
       [Word "a"; Not (Phrase "b c"); Range "1" "9" true false] : Node Z).
Proof.
  split; [right; reflexivity|]. split; [reflexivity|].
  apply (compile_keeps_the_terms must_builder
           (UnknownOperation
              [Word "a"; Not (Phrase "b c"); Range "1" "9" true false])).
  - right. reflexivity.
  - reflexivity.
Defined.

Lemma explicit_tree_ignores_the_default_operator_witness :
  default_field should_builder = default_field other_builder ∧
  unknown_free
    (AndOperation [Word "a"; Not (OrOperation [Word "b"; Word "c"])]
     : Node Z) = true ∧
  compile should_builder
    (AndOperation [Word "a"; Not (OrOperation [Word "b"; Word "c"])]) =
  compile other_builder
    (AndOperation [Word "a"; Not (OrOperation [Word "b"; Word "c"])]).
Proof.
  split; [reflexivity|]. split; [reflexivity|].
  apply (explicit_tree_ignores_the_default_operator should_builder
           other_builder
           (AndOperation [Word "a"; Not (OrOperation [Word "b"; Word "c"])])).
  - reflexivity.
  - reflexivity.
Defined.

Lemma group_around_a_plain_operand_is_transparent_witness :
  (type (Not (Word "b") : Node Z) ∉
     [TAndOperation; TOrOperation; TUnknownOperation]) ∧
  compile should_builder
    (operation COr ([Word "a"] ++ Group (Not (Word "b")) :: [Word "c"])) =
    compile should_builder
      (operation COr ([Word "a"] ++ Not (Word "b") :: [Word "c"])) ∧
  compile should_builder
    (operation COr ([Word "a"] ++ FieldGroup (Not (Word "b")) :: [Word "c"])) =
    compile should_builder
      (operation COr ([Word "a"] ++ Not (Word "b") :: [Word "c"])).
Proof.
  assert (type (Not (Word "b") : Node Z) ∉
            [TAndOperation; TOrOperation; TUnknownOperation]) as Hty.
  { apply (bool_decide_unpack _). reflexivity. }
  split; [exact Hty|].
  exact (group_around_a_plain_operand_is_transparent should_builder COr
           [Word "a"] [Word "c"] (Not (Word "b")) Hty).
Defined.

Lemma none_only_for_an_unknown_operation_witness :
  compile other_builder
    (Group (FieldGroup (UnknownOperation [Word "a"; Word "b"]))) =
    Return PyNone ∧
  (¬ known_operator other_builder) ∧
  type (ungrouped
          (Group (FieldGroup (UnknownOperation [Word "a"; Word "b"]))
           : Node Z)) = TUnknownOperation.
Proof.
  split; [reflexivity|].
  apply (none_only_for_an_unknown_operation other_builder
           (Group (FieldGroup (UnknownOperation [Word "a"; Word "b"])))).
  reflexivity.
Defined.

Lemma none_has_no_attribute_witness :
  (¬ known_operator other_builder) ∧
  type (ungrouped (Group (UnknownOperation [Word "a"; Word "b"]) : Node Z)) =
    TUnknownOperation ∧
  compile other_builder
    (Boost (Group (UnknownOperation [Word "a"; Word "b"])) 2%Z) =
    Raise AttributeError ∧
  compile other_builder
    (Fuzzy (Group (UnknownOperation [Word "a"; Word "b"])) 2%Z) =
    Raise AttributeError ∧
  compile other_builder
    (Proximity (Group (UnknownOperation [Word "a"; Word "b"])) 2%Z) =
    Raise AttributeError ∧
  (_is_nested
     (SearchField "title" (Group (UnknownOperation [Word "a"; Word "b"]))
      : Node Z) = false →
   compile other_builder
     (SearchField "title" (Group (UnknownOperation [Word "a"; Word "b"]))) =
     Raise AttributeError).
Proof.
  assert (¬ known_operator other_builder) as Hop
    by (intros [Hop|Hop]; vm_compute in Hop; discriminate Hop).
  split; [exact Hop|]. split; [reflexivity|].
  exact (none_has_no_attribute other_builder
           (Group (UnknownOperation [Word "a"; Word "b"])) 2%Z "title"
           Hop eq_refl).
Defined.

Lemma first_failure_is_raised_witness :
  built_by should_builder CAnd = Some CMust ∧
  simplify_if_same
    [Word "a";
     Group (AndOperation [Word "b"; OrOperation [Word "c"; Word "d"]]);
     OrOperation [Word "e"; Word "f"]]
    (operation CAnd
       [Word "a";
        Group (AndOperation [Word "b"; OrOperation [Word "c"; Word "d"]]);
        OrOperation [Word "e"; Word "f"]] : Node Z) =
    [Word "a"] ++
    Group (AndOperation [Word "b"; OrOperation [Word "c"; Word "d"]]) ::
    [OrOperation [Word "e"; Word "f"]] ∧
  Forall
    (fun child : Node Z =>
       opposite should_builder
         (operation CAnd
            [Word "a";
             Group (AndOperation [Word "b"; OrOperation [Word "c"; Word "d"]]);
             OrOperation [Word "e"; Word "f"]]) child = false)
    [Word "a"] ∧
  mapM (compile should_builder) [Word "a" : Node Z] =
    Return [EWord "a" "text" [] no_attrs] ∧
  opposite should_builder
    (operation CAnd
       [Word "a";
        Group (AndOperation [Word "b"; OrOperation [Word "c"; Word "d"]]);
        OrOperation [Word "e"; Word "f"]] : Node Z)
    (Group (AndOperation [Word "b"; OrOperation [Word "c"; Word "d"]])) =
    false ∧
  compile should_builder
    (Group (AndOperation [Word "b"; OrOperation [Word "c"; Word "d"]])) =
    Raise (OrAndAndOnSameLevel "c OR d") ∧
  compile should_builder
    (operation CAnd
       [Word "a";
        Group (AndOperation [Word "b"; OrOperation [Word "c"; Word "d"]]);
        OrOperation [Word "e"; Word "f"]]) =
    Raise (OrAndAndOnSameLevel "c OR d").
Proof.
  assert (Forall
    (fun child : Node Z =>
       opposite should_builder
         (operation CAnd
            [Word "a";
             Group (AndOperation [Word "b"; OrOperation [Word "c"; Word "d"]]);
             OrOperation [Word "e"; Word "f"]]) child = false)
    [Word "a"]) as Hpre by (repeat constructor).
  split; [reflexivity|]. split; [reflexivity|]. split; [exact Hpre|].
  split; [reflexivity|]. split; [reflexivity|]. split; [reflexivity|].
  exact (proj2
           (first_failure_is_raised should_builder CAnd CMust
              [Word "a";
               Group (AndOperation [Word "b"; OrOperation [Word "c"; Word "d"]]);
               OrOperation [Word "e"; Word "f"]]
              [Word "a"] [OrOperation [Word "e"; Word "f"]]
              (Group (AndOperation [Word "b"; OrOperation [Word "c"; Word "d"]]))
              [EWord "a" "text" [] no_attrs]
              eq_refl eq_refl Hpre eq_refl)
           eq_refl (OrAndAndOnSameLevel "c OR d") eq_refl).
Defined.
